(** * hari-jeopardy: the host's game-state machine

    A shallow embedding of the host side of the game
    (src/components/HostView.tsx, the types of src/types and the host half
    of services/gameSync.ts), and the properties of its state machine;
    with it the player's buzzer (PlayerView), the room codes and the two
    board loaders (geminiService.ts, staticGameService.ts).

    Conventions of the embedding.
    - A JavaScript [number] that the game only ever uses at integer values
      (scores, point values, epoch milliseconds, countdowns) is a [Z].
      Scores, which a CORRECT, an INCORRECT or an OVERRIDE_SCORE can take
      anywhere, are added, subtracted and multiplied as JavaScript does it:
      the exact result rounded to the nearest IEEE-754 double ([to_double]).
    - An optional field ([x?: T]) is an [option]; JavaScript truthiness
      ([if (x)], [!x], [a && b]) is written out by [truthy_string],
      [truthy_number] and [truthy_bool].
    - The React state cell [gameState], the ref [hostControllerPeerIdRef],
      the module variable [connections] and the messages handed to
      [conn.send] are the fields of one record, [Host].  A state update and
      the broadcast effect it schedules are applied in one step: every
      handler runs against the state committed by the previous one.
    - [Date.now()] is the parameter [now] of the handler that reads it. *)

From Stdlib Require Import ZArith List String Ascii Bool Arith Lia Permutation.
From Stdlib Require Import DecimalString DecimalNat.
Import ListNotations.

Local Open Scope string_scope.
Local Open Scope Z_scope.

(** ** Data model (types.ts) *)

Record Question := mkQuestion {
  q_id : string;
  q_value : Z;
  q_question : string;
  q_answer : string;
  q_isAnswered : bool;
  q_category : string;
  q_isGolden : option bool;
  q_isRed : option bool
}.

Record Category := mkCategory {
  title : string;
  questions : list Question
}.

Record Player := mkPlayer {
  p_id : string;
  p_name : string;
  p_score : Z;
  p_isBuzzed : bool;
  p_buzzTime : option Z;
  p_buzzerLockUntil : option Z
}.

Inductive Status :=
| LOBBY | INTRO | PLAYING | QUESTION_ACTIVE | BUZZED | REVEAL | FINISHED.

Record GameState := mkGameState {
  roomCode : string;
  status : Status;
  activeQuestion : option Question;
  activePlayerId : option string;
  players : list Player;
  categories : list Category;
  theme : string;
  timer : Z;
  buzzerLockUntil : option Z;
  revealTimer : option Z;
  isHostControllerConnected : option bool
}.

(** The sub-actions carried by a HOST_ACTION payload; [UNKNOWN_ACTION] is
    any [action] string that no branch of the handler tests for. *)
Inductive HostAction :=
| CORRECT (playerId : string)
| INCORRECT (playerId : string)
| CONTINUE
| SELECT_QUESTION (questionId : string)
| RENAME_PLAYER (playerId newName : string)
| OVERRIDE_SCORE (playerId : string) (newScore : Z)
| KICK_PLAYER (playerId : string)
| START_GAME
| SKIP
| RELEASE_BUZZER
| UNKNOWN_ACTION (action : string).

Inductive MessageType :=
| T_UPDATE_STATE | T_PLAYER_JOIN | T_BUZZ | T_SUBMIT_ANSWER | T_NEXT_TURN
| T_HOST_ACTION | T_BUZZ_LOCKED_ATTEMPT | T_RELEASE_BUZZER | T_REJECTED
| T_KICKED.

(** [payload: any], restricted to the shapes the protocol uses. *)
Inductive Payload :=
| NoPayload
| StatePayload (g : GameState)
| PlayerPayload (p : Player)
| ActionPayload (a : HostAction)
| TextPayload (s : string).

Record SyncMessage := mkMsg {
  msg_type : MessageType;
  payload : Payload;
  senderId : string
}.

(** A PeerJS [DataConnection], as far as the host looks at it. *)
Record DataConnection := mkConn {
  peer : string;
  open : bool
}.

(** The host: the React state and ref of [HostView], the [connections] of
    gameSync.ts, and [sent], the log of [conn.send] calls (receiving peer
    id and message), oldest first. *)
Record Host := mkHost {
  gameState : GameState;
  hostControllerPeerIdRef : option string;
  introPlayerIndex : Z;
  connections : list DataConnection;
  sent : list (string * SyncMessage)
}.

(** ** JavaScript truthiness *)

Definition truthy_string (o : option string) : bool :=
  match o with
  | Some s => negb (String.eqb s "")
  | None => false
  end.

Definition truthy_number (o : option Z) : bool :=
  match o with
  | Some z => negb (z =? 0)
  | None => false
  end.

Definition truthy_bool (o : option bool) : bool :=
  match o with
  | Some b => b
  | None => false
  end.

Definition status_eqb (a b : Status) : bool :=
  match a, b with
  | LOBBY, LOBBY | INTRO, INTRO | PLAYING, PLAYING
  | QUESTION_ACTIVE, QUESTION_ACTIVE | BUZZED, BUZZED
  | REVEAL, REVEAL | FINISHED, FINISHED => true
  | _, _ => false
  end.

(** ** JavaScript arithmetic on integer-valued numbers

    A double holds 53 significant bits.  An integer below [2^53] in
    magnitude is held exactly; a larger one is rounded to the nearest
    multiple of the power of two that leaves 53 bits, a tie going to the
    even multiple.  (Finite numbers only: from about [1.8e308] on
    JavaScript has [Infinity], which the game never gets near and the
    embedding does not represent.) *)
Definition to_double (z : Z) : Z :=
  let a := Z.abs z in
  if a <? 2 ^ 53 then z
  else
    let ulp := 2 ^ (Z.log2 a - 52) in
    let q := a / ulp in
    let r := a mod ulp in
    let q' := if 2 * r <? ulp then q
              else if ulp <? 2 * r then q + 1
              else if Z.even q then q else q + 1 in
    Z.sgn z * (q' * ulp).

(** [a + b], [a - b] and [a * b] on numbers. *)
Definition js_add (a b : Z) : Z := to_double (a + b).
Definition js_sub (a b : Z) : Z := to_double (a - b).
Definition js_mul (a b : Z) : Z := to_double (a * b).

(** ** Object spread: [{ ...x, field: v }] *)

Definition with_isAnswered (b : bool) (q : Question) : Question :=
  mkQuestion (q_id q) (q_value q) (q_question q) (q_answer q) b
             (q_category q) (q_isGolden q) (q_isRed q).

Definition with_isGolden (b : bool) (q : Question) : Question :=
  mkQuestion (q_id q) (q_value q) (q_question q) (q_answer q)
             (q_isAnswered q) (q_category q) (Some b) (q_isRed q).

Definition with_isRed (b : bool) (q : Question) : Question :=
  mkQuestion (q_id q) (q_value q) (q_question q) (q_answer q)
             (q_isAnswered q) (q_category q) (q_isGolden q) (Some b).

Definition with_questions (qs : list Question) (c : Category) : Category :=
  mkCategory (title c) qs.

Definition with_score (z : Z) (p : Player) : Player :=
  mkPlayer (p_id p) (p_name p) z (p_isBuzzed p) (p_buzzTime p)
           (p_buzzerLockUntil p).

Definition with_isBuzzed (b : bool) (p : Player) : Player :=
  mkPlayer (p_id p) (p_name p) (p_score p) b (p_buzzTime p)
           (p_buzzerLockUntil p).

Definition with_name (n : string) (p : Player) : Player :=
  mkPlayer (p_id p) n (p_score p) (p_isBuzzed p) (p_buzzTime p)
           (p_buzzerLockUntil p).

Definition with_buzzerLockUntil (l : Z) (p : Player) : Player :=
  mkPlayer (p_id p) (p_name p) (p_score p) (p_isBuzzed p) (p_buzzTime p)
           (Some l).

(** One [key: value] entry of a [Partial<GameState>]; [None] is an
    explicit [undefined]. *)
Inductive Field :=
| F_status (s : Status)
| F_activeQuestion (q : option Question)
| F_activePlayerId (i : option string)
| F_players (ps : list Player)
| F_categories (cs : list Category)
| F_timer (t : Z)
| F_buzzerLockUntil (l : option Z)
| F_revealTimer (r : option Z)
| F_isHostControllerConnected (b : option bool).

Definition assign (g : GameState) (f : Field) : GameState :=
  match f with
  | F_status s =>
      mkGameState (roomCode g) s (activeQuestion g) (activePlayerId g)
        (players g) (categories g) (theme g) (timer g) (buzzerLockUntil g)
        (revealTimer g) (isHostControllerConnected g)
  | F_activeQuestion q =>
      mkGameState (roomCode g) (status g) q (activePlayerId g)
        (players g) (categories g) (theme g) (timer g) (buzzerLockUntil g)
        (revealTimer g) (isHostControllerConnected g)
  | F_activePlayerId i =>
      mkGameState (roomCode g) (status g) (activeQuestion g) i
        (players g) (categories g) (theme g) (timer g) (buzzerLockUntil g)
        (revealTimer g) (isHostControllerConnected g)
  | F_players ps =>
      mkGameState (roomCode g) (status g) (activeQuestion g) (activePlayerId g)
        ps (categories g) (theme g) (timer g) (buzzerLockUntil g)
        (revealTimer g) (isHostControllerConnected g)
  | F_categories cs =>
      mkGameState (roomCode g) (status g) (activeQuestion g) (activePlayerId g)
        (players g) cs (theme g) (timer g) (buzzerLockUntil g)
        (revealTimer g) (isHostControllerConnected g)
  | F_timer t =>
      mkGameState (roomCode g) (status g) (activeQuestion g) (activePlayerId g)
        (players g) (categories g) (theme g) t (buzzerLockUntil g)
        (revealTimer g) (isHostControllerConnected g)
  | F_buzzerLockUntil l =>
      mkGameState (roomCode g) (status g) (activeQuestion g) (activePlayerId g)
        (players g) (categories g) (theme g) (timer g) l
        (revealTimer g) (isHostControllerConnected g)
  | F_revealTimer r =>
      mkGameState (roomCode g) (status g) (activeQuestion g) (activePlayerId g)
        (players g) (categories g) (theme g) (timer g) (buzzerLockUntil g)
        r (isHostControllerConnected g)
  | F_isHostControllerConnected b =>
      mkGameState (roomCode g) (status g) (activeQuestion g) (activePlayerId g)
        (players g) (categories g) (theme g) (timer g) (buzzerLockUntil g)
        (revealTimer g) b
  end.

(** [{ ...prev, ...partial }] *)
Definition merge (prev : GameState) (partial : list Field) : GameState :=
  fold_left assign partial prev.

Definition with_gameState (g : GameState) (h : Host) : Host :=
  mkHost g (hostControllerPeerIdRef h) (introPlayerIndex h) (connections h)
         (sent h).

Definition with_hostControllerPeerIdRef (r : option string) (h : Host)
  : Host :=
  mkHost (gameState h) r (introPlayerIndex h) (connections h) (sent h).

Definition with_introPlayerIndex (i : Z) (h : Host) : Host :=
  mkHost (gameState h) (hostControllerPeerIdRef h) i (connections h) (sent h).

Definition with_connections (cs : list DataConnection) (h : Host) : Host :=
  mkHost (gameState h) (hostControllerPeerIdRef h) (introPlayerIndex h) cs
         (sent h).

Definition log_send (to : string) (m : SyncMessage) (h : Host) : Host :=
  mkHost (gameState h) (hostControllerPeerIdRef h) (introPlayerIndex h)
         (connections h) (sent h ++ [(to, m)]).

(** ** Host half of gameSync.ts *)

Definition UPDATE_STATE_msg (state : GameState) : SyncMessage :=
  mkMsg T_UPDATE_STATE (StatePayload state) "HOST".

(** [broadcastState]: send the snapshot on every open connection. *)
Definition broadcastState (state : GameState) (h : Host) : Host :=
  fold_left
    (fun acc conn =>
       if open conn then log_send (peer conn) (UPDATE_STATE_msg state) acc
       else acc)
    (connections h) h.

(** [sendToPeer]: the first connection whose [peer] is [peerId], if open. *)
Definition sendToPeer (peerId : string) (m : SyncMessage) (h : Host) : Host :=
  match find (fun c => String.eqb (peer c) peerId) (connections h) with
  | Some conn => if open conn then log_send (peer conn) m h else h
  | None => h
  end.

(** ** HostView.tsx *)

(** Committing a new state object: the [useEffect] on [gameState] copies it
    to [gameStateRef] and calls [broadcastState]. *)
Definition setGameState (g : GameState) (h : Host) : Host :=
  broadcastState g (with_gameState g h).

Definition updateAndBroadcast (partial : list Field) (h : Host) : Host :=
  setGameState (merge (gameState h) partial) h.

(** [p.id === x] for an optional [x]. *)
Definition id_is (x : option string) (i : string) : bool :=
  match x with
  | Some a => String.eqb i a
  | None => false
  end.

(** [let multiplier = 1; if (isRed) multiplier = 5; else if (isGolden)
    multiplier = 2]. *)
Definition multiplier (q : Question) : Z :=
  if truthy_bool (q_isRed q) then 5
  else if truthy_bool (q_isGolden q) then 2
  else 1.

(** [activeQuestion.value * multiplier] *)
Definition points_of (q : Question) : Z := js_mul (q_value q) (multiplier q).

Definition award (apid : option string) (points : Z) (ps : list Player)
  : list Player :=
  map (fun p => if id_is apid (p_id p)
                then with_isBuzzed false
                       (with_score (js_add (p_score p) points) p)
                else with_isBuzzed false p) ps.

Definition deduct (apid : option string) (points : Z) (ps : list Player)
  : list Player :=
  map (fun p => if id_is apid (p_id p)
                then with_isBuzzed false
                       (with_score (js_sub (p_score p) points) p)
                else p) ps.

(** [categories.map(cat => ({...cat, questions: cat.questions.map(q =>
    q.id === activeQuestion?.id ? {...q, isAnswered: true} : q)}))] *)
Definition mark_answered (aq : option Question) (cs : list Category)
  : list Category :=
  map (fun cat =>
         with_questions
           (map (fun q => if id_is (option_map q_id aq) (q_id q)
                          then with_isAnswered true q else q)
                (questions cat))
           cat) cs.

(** [categories.every(cat => cat.questions.every(q => q.isAnswered))] *)
Definition allAnswered (cs : list Category) : bool :=
  forallb (fun cat => forallb q_isAnswered (questions cat)) cs.

(** The functions below are declared in the body of the component, so each
    render creates them afresh over that render's [gameState].  The value
    they close over is their first argument. *)

Definition startGame (closure : option GameState) (h : Host) : Host :=
  match closure with
  | Some _ => with_introPlayerIndex 0 (updateAndBroadcast [F_status INTRO] h)
  | None => h
  end.

Definition one_hour : Z := 1000 * 60 * 60.

(** [selectQuestion] reads the state through the functional update
    [setGameState(prev => ...)], not through its closure. *)
Definition selectQuestion (q : Question) (now : Z) (h : Host) : Host :=
  let prev := gameState h in
  if negb (status_eqb (status prev) PLAYING) then h
  else
    let lockUntil := now + one_hour in
    setGameState
      (merge prev [F_status QUESTION_ACTIVE; F_activeQuestion (Some q);
                   F_timer 30; F_buzzerLockUntil (Some lockUntil)]) h.

Definition handleCorrect (closure : option GameState) (h : Host) : Host :=
  match closure with
  | None => h
  | Some gs =>
      match activeQuestion gs with
      | None => h
      | Some aq =>
          if negb (truthy_string (activePlayerId gs))
             || negb (status_eqb (status gs) QUESTION_ACTIVE)
          then h
          else
            let points := points_of aq in
            let updatedPlayers :=
              award (activePlayerId gs) points (players gs) in
            let updatedCategories :=
              mark_answered (activeQuestion gs) (categories gs) in
            updateAndBroadcast
              [F_status REVEAL; F_players updatedPlayers;
               F_categories updatedCategories;
               F_activePlayerId (activePlayerId gs);
               F_revealTimer (Some 5)] h
      end
  end.

Definition handleIncorrect (closure : option GameState) (now : Z) (h : Host)
  : Host :=
  match closure with
  | None => h
  | Some gs =>
      match activeQuestion gs with
      | None => h
      | Some aq =>
          if negb (truthy_string (activePlayerId gs)) then h
          else
            let points := points_of aq in
            let updatedPlayers :=
              deduct (activePlayerId gs) points (players gs) in
            updateAndBroadcast
              [F_status QUESTION_ACTIVE; F_players updatedPlayers;
               F_activePlayerId None; F_timer 30;
               F_buzzerLockUntil (Some (now + one_hour))] h
      end
  end.

Definition skipQuestion (closure : option GameState) (h : Host) : Host :=
  match closure with
  | None => h
  | Some gs =>
      match activeQuestion gs with
      | None => h
      | Some _ =>
          let updatedCategories :=
            mark_answered (activeQuestion gs) (categories gs) in
          updateAndBroadcast
            [F_status REVEAL; F_categories updatedCategories;
             F_activePlayerId None] h
      end
  end.

Definition finishReveal (closure : option GameState) (h : Host) : Host :=
  let to_board :=
    updateAndBroadcast
      [F_status PLAYING; F_activeQuestion None; F_activePlayerId None] h in
  match closure with
  | Some gs =>
      if allAnswered (categories gs)
      then updateAndBroadcast
             [F_status FINISHED; F_activeQuestion None; F_activePlayerId None]
             h
      else to_board
  | None => to_board
  end.

(** [handlePeerMessage] is [useCallback(..., [updateAndBroadcast])] and
    [updateAndBroadcast] is [useCallback(..., [])], so the handler given to
    [initHost] is the one created by the first render, for good.  It reads
    the state through [gameStateRef], but the [startGame] and
    [skipQuestion] it calls are the first render's, whose [gameState] is
    the initial [useState] value [null]: for them the game state does not
    exist.  (The CONTINUE branch is written out in the handler instead of
    calling [finishReveal] for this reason, as its comment says, and
    [selectQuestion] goes through [setGameState(prev => ...)].) *)
Definition first_render_gameState : option GameState := None.

(** [targetQ]: [forEach] over the categories keeps the last match. *)
Definition find_question (questionId : string) (cs : list Category)
  : option Question :=
  fold_left
    (fun targetQ cat =>
       match find (fun q => String.eqb (q_id q) questionId) (questions cat)
       with
       | Some q => Some q
       | None => targetQ
       end)
    cs None.

Definition REJECTED_msg : SyncMessage :=
  mkMsg T_REJECTED
        (TextPayload "Another host controller is already connected.") "HOST".

Definition KICKED_msg : SyncMessage :=
  mkMsg T_KICKED (TextPayload "You have been kicked by the host.") "HOST".

(** [player?.buzzerLockUntil && now < player.buzzerLockUntil] *)
Definition individual_lock_active (player : option Player) (now : Z) : bool :=
  match player with
  | Some p =>
      truthy_number (p_buzzerLockUntil p)
      && match p_buzzerLockUntil p with
         | Some l => now <? l
         | None => false
         end
  | None => false
  end.

(** [currentState.buzzerLockUntil && now < currentState.buzzerLockUntil] *)
Definition global_lock_active (g : GameState) (now : Z) : bool :=
  truthy_number (buzzerLockUntil g)
  && match buzzerLockUntil g with
     | Some l => now <? l
     | None => false
     end.

Definition handleHostAction (a : HostAction) (now : Z) (h : Host) : Host :=
  let currentState := gameState h in
  match a with
  | CORRECT _ =>
      match activeQuestion currentState with
      | None => h
      | Some aq =>
          if negb (truthy_string (activePlayerId currentState)) then h
          else
            let points := points_of aq in
            let updatedPlayers :=
              award (activePlayerId currentState) points
                    (players currentState) in
            let updatedCategories :=
              mark_answered (activeQuestion currentState)
                            (categories currentState) in
            updateAndBroadcast
              [F_status REVEAL; F_players updatedPlayers;
               F_categories updatedCategories;
               F_activePlayerId (activePlayerId currentState);
               F_revealTimer (Some 5)] h
      end
  | INCORRECT _ =>
      match activeQuestion currentState with
      | None => h
      | Some aq =>
          if negb (truthy_string (activePlayerId currentState)) then h
          else
            let points := points_of aq in
            let updatedPlayers :=
              deduct (activePlayerId currentState) points
                     (players currentState) in
            updateAndBroadcast
              [F_status QUESTION_ACTIVE; F_players updatedPlayers;
               F_activePlayerId None; F_timer 30;
               F_buzzerLockUntil (Some (now + one_hour))] h
      end
  | CONTINUE =>
      if allAnswered (categories currentState)
      then updateAndBroadcast
             [F_status FINISHED; F_activeQuestion None; F_activePlayerId None]
             h
      else updateAndBroadcast
             [F_status PLAYING; F_activeQuestion None; F_activePlayerId None]
             h
  | SELECT_QUESTION questionId =>
      match find_question questionId (categories currentState) with
      | Some targetQ =>
          if negb (q_isAnswered targetQ)
             && status_eqb (status currentState) PLAYING
          then selectQuestion targetQ now h
          else h
      | None => h
      end
  | RENAME_PLAYER playerId newName =>
      let updatedPlayers :=
        map (fun p => if String.eqb (p_id p) playerId
                      then with_name newName p else p)
            (players currentState) in
      updateAndBroadcast [F_players updatedPlayers] h
  | OVERRIDE_SCORE playerId newScore =>
      let updatedPlayers :=
        map (fun p => if String.eqb (p_id p) playerId
                      then with_score newScore p else p)
            (players currentState) in
      updateAndBroadcast [F_players updatedPlayers] h
  | KICK_PLAYER playerToKickId =>
      let h1 := sendToPeer playerToKickId KICKED_msg h in
      updateAndBroadcast
        [F_players
           (filter (fun p => negb (String.eqb (p_id p) playerToKickId))
                   (players currentState))] h1
  | START_GAME => startGame first_render_gameState h
  | SKIP => skipQuestion first_render_gameState h
  | RELEASE_BUZZER => updateAndBroadcast [F_buzzerLockUntil (Some 0)] h
  | UNKNOWN_ACTION _ => h
  end.

(** [handlePeerMessage(msg, senderPeerId)].  A message whose payload does
    not have the shape its type calls for makes the handler read a field
    of a non-object; such a message changes nothing. *)
Definition handlePeerMessage (msg : SyncMessage) (senderPeerId : string)
           (now : Z) (h : Host) : Host :=
  let currentState := gameState h in
  match msg_type msg with
  | T_PLAYER_JOIN =>
      match payload msg with
      | PlayerPayload newPlayer =>
          if String.eqb (p_name newPlayer) "HOST_CONTROLLER" then
            if truthy_string (hostControllerPeerIdRef h)
               && negb (id_is (hostControllerPeerIdRef h) senderPeerId)
            then sendToPeer senderPeerId REJECTED_msg h
            else
              updateAndBroadcast
                [F_isHostControllerConnected (Some true)]
                (with_hostControllerPeerIdRef (Some senderPeerId) h)
          else
            match find (fun p => String.eqb (p_id p) (p_id newPlayer))
                       (players currentState) with
            | None =>
                updateAndBroadcast
                  [F_players (players currentState ++ [newPlayer])] h
            | Some _ => h
            end
      | _ => h
      end
  | T_BUZZ =>
      if status_eqb (status currentState) QUESTION_ACTIVE
         && negb (truthy_string (activePlayerId currentState))
      then
        let player :=
          find (fun p => String.eqb (p_id p) (senderId msg))
               (players currentState) in
        if individual_lock_active player now then h
        else if global_lock_active currentState now then h
        else updateAndBroadcast [F_activePlayerId (Some (senderId msg))] h
      else h
  | T_BUZZ_LOCKED_ATTEMPT =>
      let updatedPlayersLock :=
        map (fun p => if String.eqb (p_id p) (senderId msg)
                      then let lockDuration := 2000 in
                           with_buzzerLockUntil (now + lockDuration) p
                      else p)
            (players currentState) in
      updateAndBroadcast [F_players updatedPlayersLock] h
  | T_HOST_ACTION =>
      match payload msg with
      | ActionPayload a => handleHostAction a now h
      | _ => h
      end
  | _ => h
  end.

(** ** Everything else that changes the host's state

    Besides peer messages the state is changed by PeerJS connection events,
    by the buttons and inputs of the host screen, and by the timer effects.
    A button exists only while the JSX that renders it does, and an effect
    fires only under its condition; [fire] checks both on the rendered
    state and then runs the handler of that render. *)

Inductive Event :=
| Receive (msg : SyncMessage) (senderPeerId : string) (now : Z)
| Connection (conn : DataConnection)
| ConnectionClosed (n : nat)
| ClickResetController
| ClickStartGame
| IntroNextPlayer
| IntroFinished
| ClickQuestion (cIdx qIdx : nat) (now : Z)
| ClickCorrect
| ClickIncorrect (now : Z)
| ClickSkip
| ClickContinue
| TimerTick
| TimerExpired
| RevealTick
| RevealExpired
| EditName (n : nat) (value : string)
| EditScore (n : nat) (val : Z).

Definition remove_nth {A : Type} (n : nat) (l : list A) : list A :=
  firstn n l ++ skipn (S n) l.

(** The [onDisconnect] callback given to [initHost]. *)
Definition onDisconnect (disconnectedPeerId : string) (h : Host) : Host :=
  if id_is (hostControllerPeerIdRef h) disconnectedPeerId
  then updateAndBroadcast [F_isHostControllerConnected (Some false)]
         (with_hostControllerPeerIdRef None h)
  else h.

Definition fire (e : Event) (h : Host) : Host :=
  let gs := gameState h in
  match e with
  | Receive msg senderPeerId now => handlePeerMessage msg senderPeerId now h
  | Connection conn => with_connections (connections h ++ [conn]) h
  | ConnectionClosed n =>
      match nth_error (connections h) n with
      | Some conn =>
          onDisconnect (peer conn)
            (with_connections (remove_nth n (connections h)) h)
      | None => h
      end
  | ClickResetController =>
      if truthy_bool (isHostControllerConnected gs)
      then updateAndBroadcast [F_isHostControllerConnected (Some false)]
             (with_hostControllerPeerIdRef None h)
      else h
  | ClickStartGame =>
      if status_eqb (status gs) LOBBY
         && negb (Nat.eqb (List.length (players gs)) 0)
      then startGame (Some gs) h
      else h
  | IntroNextPlayer =>
      if status_eqb (status gs) INTRO
         && (0 <=? introPlayerIndex h)
         && (introPlayerIndex h <? Z.of_nat (List.length (players gs)))
      then with_introPlayerIndex (introPlayerIndex h + 1) h
      else h
  | IntroFinished =>
      if status_eqb (status gs) INTRO
         && (0 <=? introPlayerIndex h)
         && negb (introPlayerIndex h <? Z.of_nat (List.length (players gs)))
      then with_introPlayerIndex (-1)
             (updateAndBroadcast [F_status PLAYING] h)
      else h
  | ClickQuestion cIdx qIdx now =>
      if status_eqb (status gs) PLAYING then
        match nth_error (categories gs) cIdx with
        | Some cat =>
            match nth_error (questions cat) qIdx with
            | Some q =>
                if negb (q_isAnswered q) then selectQuestion q now h else h
            | None => h
            end
        | None => h
        end
      else h
  | ClickCorrect =>
      match activeQuestion gs with
      | Some _ =>
          if status_eqb (status gs) QUESTION_ACTIVE
             && truthy_string (activePlayerId gs)
          then handleCorrect (Some gs) h
          else h
      | None => h
      end
  | ClickIncorrect now =>
      match activeQuestion gs with
      | Some _ =>
          if status_eqb (status gs) QUESTION_ACTIVE
             && truthy_string (activePlayerId gs)
          then handleIncorrect (Some gs) now h
          else h
      | None => h
      end
  | ClickSkip =>
      match activeQuestion gs with
      | Some _ =>
          if status_eqb (status gs) QUESTION_ACTIVE
          then skipQuestion (Some gs) h
          else h
      | None => h
      end
  | ClickContinue =>
      match activeQuestion gs with
      | Some _ =>
          if status_eqb (status gs) REVEAL
          then finishReveal (Some gs) h
          else h
      | None => h
      end
  | TimerTick =>
      if status_eqb (status gs) QUESTION_ACTIVE
         && (0 <? timer gs)
         && negb (truthy_string (activePlayerId gs))
      then let newTimer := timer gs - 1 in
           setGameState (merge gs [F_timer newTimer]) h
      else h
  | TimerExpired =>
      if status_eqb (status gs) QUESTION_ACTIVE
         && (timer gs =? 0)
         && negb (truthy_string (activePlayerId gs))
      then skipQuestion (Some gs) h
      else h
  | RevealTick =>
      match revealTimer gs with
      | Some r =>
          if status_eqb (status gs) REVEAL && negb (r =? 0) && (0 <? r)
          then let nextVal := r - 1 in
               setGameState (merge gs [F_revealTimer (Some nextVal)]) h
          else h
      | None => h
      end
  | RevealExpired =>
      match revealTimer gs with
      | Some r =>
          if status_eqb (status gs) REVEAL && (r =? 0)
          then finishReveal (Some gs) h
          else h
      | None => h
      end
  | EditName n value =>
      match nth_error (players gs) n with
      | Some p =>
          if negb (String.eqb value (p_name p))
          then updateAndBroadcast
                 [F_players
                    (map (fun pl => if String.eqb (p_id pl) (p_id p)
                                    then with_name value pl else pl)
                         (players gs))] h
          else h
      | None => h
      end
  | EditScore n val =>
      match nth_error (players gs) n with
      | Some p =>
          if negb (val =? p_score p)
          then updateAndBroadcast
                 [F_players
                    (map (fun pl => if String.eqb (p_id pl) (p_id p)
                                    then with_score val pl else pl)
                         (players gs))] h
          else h
      | None => h
      end
  end.

(** ** Board initialisation ([initGame])

    [random k] stands for the outcome of the [k]-th call of
    [Math.random()]: [Math.floor(Math.random() * b)] is [random k] reduced
    into [0 .. b-1], which reaches every value of the range as [random]
    varies (and is [0] when [b] is [0]). *)

Definition floor_random (r : nat) (b : nat) : nat :=
  if Nat.eqb b 0 then 0%nat else Nat.modulo r b.

(** [a[i] = v] for an index inside the array. *)
Fixpoint set_index {A : Type} (i : nat) (v : A) (a : list A) : list A :=
  match a, i with
  | [], _ => []
  | _ :: t, O => v :: t
  | x :: t, S i' => x :: set_index i' v t
  end.

(** [[a[i], a[j]] = [a[j], a[i]]] *)
Definition swap (i j : nat) (a : list nat) : list nat :=
  let ai := nth i a O in
  let aj := nth j a O in
  set_index j ai (set_index i aj a).

(** [for (let i = indices.length - 1; i > 0; i--)], where [k] calls of
    [Math.random()] have been made so far. *)
Fixpoint shuffle (random : nat -> nat) (k : nat) (i : nat)
         (indices : list nat) : list nat :=
  match i with
  | O => indices
  | S i' =>
      let j := floor_random (random k) (i + 1)%nat in
      shuffle random (S k) i' (swap i j indices)
  end.

Definition includes (l : list nat) (x : nat) : bool :=
  existsb (Nat.eqb x) l.

(** [cat.questions.map(q => { ... qCount++ ... })]: a map that threads the
    running question counter. *)
Fixpoint map_counting (f : nat -> Question -> Question) (count : nat)
         (qs : list Question) : list Question * nat :=
  match qs with
  | [] => ([], count)
  | q :: t =>
      let q' := f count q in
      let (t', count') := map_counting f (S count) t in
      (q' :: t', count')
  end.

Fixpoint map_categories_counting (f : nat -> Question -> Question)
         (count : nat) (cs : list Category) : list Category * nat :=
  match cs with
  | [] => ([], count)
  | cat :: t =>
      let (qs, count1) := map_counting f count (questions cat) in
      let (t', count2) := map_categories_counting f count1 t in
      (with_questions qs cat :: t', count2)
  end.

(** [while (attempts < 100)], with [remaining = 100 - attempts]; the result
    is [redIndex], [-1] when no attempt found a non-golden index. *)
Fixpoint pick_red (random : nat -> nat) (k : nat) (remaining : nat)
         (qCount : nat) (goldenIndices : list nat) : Z :=
  match remaining with
  | O => -1
  | S remaining' =>
      let r := floor_random (random k) qCount in
      if negb (includes goldenIndices r) then Z.of_nat r
      else pick_red random (S k) remaining' qCount goldenIndices
  end.

Definition allQuestions (cs : list Category) : list Question :=
  flat_map questions cs.

Definition goldenIndices_of (random : nat -> nat) (cs : list Category)
  : list nat :=
  let n := List.length (allQuestions cs) in
  firstn 3 (shuffle random 0 (n - 1)%nat (seq 0 n)).

Definition redIndex_of (random : nat -> nat) (cs : list Category) : Z :=
  let n := List.length (allQuestions cs) in
  let goldenIndices := goldenIndices_of random cs in
  let qCount :=
    snd (map_categories_counting
           (fun qCount q => if includes goldenIndices qCount
                            then with_isGolden true q else q)
           0 cs) in
  pick_red random (n - 1)%nat 100 qCount goldenIndices.

(** The board of the state that [initGame] builds from the generated (or
    loaded) [categories]. *)
Definition init_board (random : nat -> nat) (cs : list Category)
  : list Category :=
  let goldenIndices := goldenIndices_of random cs in
  let categoriesWithGolden :=
    fst (map_categories_counting
           (fun qCount q => if includes goldenIndices qCount
                            then with_isGolden true q else q)
           0 cs) in
  let redIndex := redIndex_of random cs in
  let categoriesWithRed :=
    fst (map_categories_counting
           (fun qCountRed q => if Z.of_nat qCountRed =? redIndex
                               then with_isRed true q else q)
           0 categoriesWithGolden) in
  categoriesWithRed.

Definition initGame (room : string) (theme0 : string) (random : nat -> nat)
           (cs : list Category) : GameState :=
  mkGameState room LOBBY None None [] (init_board random cs) theme0 30
              None None None.

Definition init_host (room : string) (theme0 : string) (random : nat -> nat)
           (cs : list Category) : Host :=
  mkHost (initGame room theme0 random cs) None (-1) [] [].

(** The authoritative states the host can be in. *)
Inductive reachable : Host -> Prop :=
| reachable_init : forall room theme0 random cs,
    reachable (init_host room theme0 random cs)
| reachable_fire : forall h e, reachable h -> reachable (fire e h).

Definition run (es : list Event) (h : Host) : Host :=
  fold_left (fun acc e => fire e acc) es h.

(** ** Updates that have not been rendered yet

    [setGameState] does not change what a handler reads.  The peer
    handler reads [gameStateRef.current]; a button or an effect reads the
    [gameState] of the render that created it.  Both are refreshed only
    once React has rendered the new state and run the effect on
    [gameState], which is also what broadcasts it.  A handler that runs
    before that computes its partial from the old snapshot, and React
    merges the partial into the newest state ([{ ...prev, ...partial }]).

    [fire] and [reachable] above are the host when every update is
    rendered before the next event is handled.  [live_fire] below is the
    host in general: [gameStateRef] is the snapshot of the last render,
    the [gameState] of [react] is the state React holds, and [commit] is
    the render with its effect. *)

(** What a handler passes to [setGameState]. *)
Inductive StateUpdate :=
| Keep                                    (* no call *)
| Merge (partial : list Field)            (* [updateAndBroadcast(partial)] *)
| SelectUpdater (q : Question) (now : Z)  (* the updater of [selectQuestion] *)
| TimerUpdater                            (* of the countdown interval *)
| RevealUpdater.                          (* of the reveal interval *)

(** The value of the updater at [prev]; [None] when it returns [prev]
    itself, which is no new state. *)
Definition apply_update (u : StateUpdate) (prev : GameState)
  : option GameState :=
  match u with
  | Keep => None
  | Merge partial => Some (merge prev partial)
  | SelectUpdater q now =>
      if negb (status_eqb (status prev) PLAYING) then None
      else
        let lockUntil := now + one_hour in
        Some (merge prev [F_status QUESTION_ACTIVE; F_activeQuestion (Some q);
                          F_timer 30; F_buzzerLockUntil (Some lockUntil)])
  | TimerUpdater =>
      let newTimer := timer prev - 1 in
      Some (merge prev [F_timer newTimer])
  | RevealUpdater =>
      if negb (status_eqb (status prev) REVEAL)
         || negb (truthy_number (revealTimer prev))
      then None
      else
        match revealTimer prev with
        | Some r => let nextVal := r - 1 in
                    Some (merge prev [F_revealTimer (Some nextVal)])
        | None => None
        end
  end.

Definition startGame_update (closure : option GameState) (h : Host)
  : Host * StateUpdate :=
  match closure with
  | Some _ => (with_introPlayerIndex 0 h, Merge [F_status INTRO])
  | None => (h, Keep)
  end.

Definition handleCorrect_update (closure : option GameState) : StateUpdate :=
  match closure with
  | None => Keep
  | Some gs =>
      match activeQuestion gs with
      | None => Keep
      | Some aq =>
          if negb (truthy_string (activePlayerId gs))
             || negb (status_eqb (status gs) QUESTION_ACTIVE)
          then Keep
          else
            let points := points_of aq in
            let updatedPlayers :=
              award (activePlayerId gs) points (players gs) in
            let updatedCategories :=
              mark_answered (activeQuestion gs) (categories gs) in
            Merge [F_status REVEAL; F_players updatedPlayers;
                   F_categories updatedCategories;
                   F_activePlayerId (activePlayerId gs);
                   F_revealTimer (Some 5)]
      end
  end.

Definition handleIncorrect_update (closure : option GameState) (now : Z)
  : StateUpdate :=
  match closure with
  | None => Keep
  | Some gs =>
      match activeQuestion gs with
      | None => Keep
      | Some aq =>
          if negb (truthy_string (activePlayerId gs)) then Keep
          else
            let points := points_of aq in
            let updatedPlayers :=
              deduct (activePlayerId gs) points (players gs) in
            Merge [F_status QUESTION_ACTIVE; F_players updatedPlayers;
                   F_activePlayerId None; F_timer 30;
                   F_buzzerLockUntil (Some (now + one_hour))]
      end
  end.

Definition skipQuestion_update (closure : option GameState) : StateUpdate :=
  match closure with
  | None => Keep
  | Some gs =>
      match activeQuestion gs with
      | None => Keep
      | Some _ =>
          let updatedCategories :=
            mark_answered (activeQuestion gs) (categories gs) in
          Merge [F_status REVEAL; F_categories updatedCategories;
                 F_activePlayerId None]
      end
  end.

Definition finishReveal_update (closure : option GameState) : StateUpdate :=
  let to_board :=
    Merge [F_status PLAYING; F_activeQuestion None; F_activePlayerId None] in
  match closure with
  | Some gs =>
      if allAnswered (categories gs)
      then Merge [F_status FINISHED; F_activeQuestion None;
                  F_activePlayerId None]
      else to_board
  | None => to_board
  end.

(** The HOST_ACTION branch of [handlePeerMessage], over
    [currentState = gameStateRef.current]: what it does at once (the
    KICKED message) and what it passes to [setGameState]. *)
Definition handleHostAction_update (a : HostAction) (now : Z)
           (currentState : GameState) (h : Host) : Host * StateUpdate :=
  match a with
  | CORRECT _ =>
      match activeQuestion currentState with
      | None => (h, Keep)
      | Some aq =>
          if negb (truthy_string (activePlayerId currentState)) then (h, Keep)
          else
            let points := points_of aq in
            let updatedPlayers :=
              award (activePlayerId currentState) points
                    (players currentState) in
            let updatedCategories :=
              mark_answered (activeQuestion currentState)
                            (categories currentState) in
            (h, Merge [F_status REVEAL; F_players updatedPlayers;
                       F_categories updatedCategories;
                       F_activePlayerId (activePlayerId currentState);
                       F_revealTimer (Some 5)])
      end
  | INCORRECT _ =>
      match activeQuestion currentState with
      | None => (h, Keep)
      | Some aq =>
          if negb (truthy_string (activePlayerId currentState)) then (h, Keep)
          else
            let points := points_of aq in
            let updatedPlayers :=
              deduct (activePlayerId currentState) points
                     (players currentState) in
            (h, Merge [F_status QUESTION_ACTIVE; F_players updatedPlayers;
                       F_activePlayerId None; F_timer 30;
                       F_buzzerLockUntil (Some (now + one_hour))])
      end
  | CONTINUE =>
      if allAnswered (categories currentState)
      then (h, Merge [F_status FINISHED; F_activeQuestion None;
                      F_activePlayerId None])
      else (h, Merge [F_status PLAYING; F_activeQuestion None;
                      F_activePlayerId None])
  | SELECT_QUESTION questionId =>
      match find_question questionId (categories currentState) with
      | Some targetQ =>
          if negb (q_isAnswered targetQ)
             && status_eqb (status currentState) PLAYING
          then (h, SelectUpdater targetQ now)
          else (h, Keep)
      | None => (h, Keep)
      end
  | RENAME_PLAYER playerId newName =>
      let updatedPlayers :=
        map (fun p => if String.eqb (p_id p) playerId
                      then with_name newName p else p)
            (players currentState) in
      (h, Merge [F_players updatedPlayers])
  | OVERRIDE_SCORE playerId newScore =>
      let updatedPlayers :=
        map (fun p => if String.eqb (p_id p) playerId
                      then with_score newScore p else p)
            (players currentState) in
      (h, Merge [F_players updatedPlayers])
  | KICK_PLAYER playerToKickId =>
      (sendToPeer playerToKickId KICKED_msg h,
       Merge [F_players
                (filter (fun p => negb (String.eqb (p_id p) playerToKickId))
                        (players currentState))])
  | START_GAME => startGame_update first_render_gameState h
  | SKIP => (h, skipQuestion_update first_render_gameState)
  | RELEASE_BUZZER => (h, Merge [F_buzzerLockUntil (Some 0)])
  | UNKNOWN_ACTION _ => (h, Keep)
  end.

(** [handlePeerMessage] over [currentState = gameStateRef.current]. *)
Definition handlePeerMessage_update (msg : SyncMessage)
           (senderPeerId : string) (now : Z) (currentState : GameState)
           (h : Host) : Host * StateUpdate :=
  match msg_type msg with
  | T_PLAYER_JOIN =>
      match payload msg with
      | PlayerPayload newPlayer =>
          if String.eqb (p_name newPlayer) "HOST_CONTROLLER" then
            if truthy_string (hostControllerPeerIdRef h)
               && negb (id_is (hostControllerPeerIdRef h) senderPeerId)
            then (sendToPeer senderPeerId REJECTED_msg h, Keep)
            else (with_hostControllerPeerIdRef (Some senderPeerId) h,
                  Merge [F_isHostControllerConnected (Some true)])
          else
            match find (fun p => String.eqb (p_id p) (p_id newPlayer))
                       (players currentState) with
            | None =>
                (h, Merge [F_players (players currentState ++ [newPlayer])])
            | Some _ => (h, Keep)
            end
      | _ => (h, Keep)
      end
  | T_BUZZ =>
      if status_eqb (status currentState) QUESTION_ACTIVE
         && negb (truthy_string (activePlayerId currentState))
      then
        let player :=
          find (fun p => String.eqb (p_id p) (senderId msg))
               (players currentState) in
        if individual_lock_active player now then (h, Keep)
        else if global_lock_active currentState now then (h, Keep)
        else (h, Merge [F_activePlayerId (Some (senderId msg))])
      else (h, Keep)
  | T_BUZZ_LOCKED_ATTEMPT =>
      let updatedPlayersLock :=
        map (fun p => if String.eqb (p_id p) (senderId msg)
                      then let lockDuration := 2000 in
                           with_buzzerLockUntil (now + lockDuration) p
                      else p)
            (players currentState) in
      (h, Merge [F_players updatedPlayersLock])
  | T_HOST_ACTION =>
      match payload msg with
      | ActionPayload a => handleHostAction_update a now currentState h
      | _ => (h, Keep)
      end
  | _ => (h, Keep)
  end.

Definition onDisconnect_update (disconnectedPeerId : string) (h : Host)
  : Host * StateUpdate :=
  if id_is (hostControllerPeerIdRef h) disconnectedPeerId
  then (with_hostControllerPeerIdRef None h,
        Merge [F_isHostControllerConnected (Some false)])
  else (h, Keep).

(** The component between two renders. *)
Record Live := mkLive {
  react : Host;              (* React's state, the refs, gameSync's module *)
  gameStateRef : GameState;  (* the [gameState] of the last render *)
  introRendered : Z;         (* its [introPlayerIndex] *)
  dirty : bool               (* a new state object awaits its render *)
}.

(** A host whose state has been rendered. *)
Definition settle (h : Host) : Live :=
  mkLive h (gameState h) (introPlayerIndex h) false.

(** [setGameState(updater)]: React applies the updaters in the order of
    the calls, each to the result of the one before. *)
Definition enqueue (u : StateUpdate) (h : Host) (L : Live) : Live :=
  match apply_update u (gameState h) with
  | Some g =>
      mkLive (with_gameState g h) (gameStateRef L) (introRendered L) true
  | None => mkLive h (gameStateRef L) (introRendered L) (dirty L)
  end.

(** The event [e] on the rendered snapshot [gs] (what the screen shows and
    what the closures and [gameStateRef] hold) and the rendered
    [introPlayerIndex]; the refs and gameSync's connections are read as
    they are. *)
Definition event_update (e : Event) (gs : GameState) (intro : Z) (h : Host)
  : Host * StateUpdate :=
  match e with
  | Receive msg senderPeerId now =>
      handlePeerMessage_update msg senderPeerId now gs h
  | Connection conn => (with_connections (connections h ++ [conn]) h, Keep)
  | ConnectionClosed n =>
      match nth_error (connections h) n with
      | Some conn =>
          onDisconnect_update (peer conn)
            (with_connections (remove_nth n (connections h)) h)
      | None => (h, Keep)
      end
  | ClickResetController =>
      if truthy_bool (isHostControllerConnected gs)
      then (with_hostControllerPeerIdRef None h,
            Merge [F_isHostControllerConnected (Some false)])
      else (h, Keep)
  | ClickStartGame =>
      if status_eqb (status gs) LOBBY
         && negb (Nat.eqb (List.length (players gs)) 0)
      then startGame_update (Some gs) h
      else (h, Keep)
  | IntroNextPlayer =>
      if status_eqb (status gs) INTRO
         && (0 <=? intro)
         && (intro <? Z.of_nat (List.length (players gs)))
      then (with_introPlayerIndex (introPlayerIndex h + 1) h, Keep)
      else (h, Keep)
  | IntroFinished =>
      if status_eqb (status gs) INTRO
         && (0 <=? intro)
         && negb (intro <? Z.of_nat (List.length (players gs)))
      then (with_introPlayerIndex (-1) h, Merge [F_status PLAYING])
      else (h, Keep)
  | ClickQuestion cIdx qIdx now =>
      if status_eqb (status gs) PLAYING then
        match nth_error (categories gs) cIdx with
        | Some cat =>
            match nth_error (questions cat) qIdx with
            | Some q =>
                if negb (q_isAnswered q) then (h, SelectUpdater q now)
                else (h, Keep)
            | None => (h, Keep)
            end
        | None => (h, Keep)
        end
      else (h, Keep)
  | ClickCorrect =>
      match activeQuestion gs with
      | Some _ =>
          if status_eqb (status gs) QUESTION_ACTIVE
             && truthy_string (activePlayerId gs)
          then (h, handleCorrect_update (Some gs))
          else (h, Keep)
      | None => (h, Keep)
      end
  | ClickIncorrect now =>
      match activeQuestion gs with
      | Some _ =>
          if status_eqb (status gs) QUESTION_ACTIVE
             && truthy_string (activePlayerId gs)
          then (h, handleIncorrect_update (Some gs) now)
          else (h, Keep)
      | None => (h, Keep)
      end
  | ClickSkip =>
      match activeQuestion gs with
      | Some _ =>
          if status_eqb (status gs) QUESTION_ACTIVE
          then (h, skipQuestion_update (Some gs))
          else (h, Keep)
      | None => (h, Keep)
      end
  | ClickContinue =>
      match activeQuestion gs with
      | Some _ =>
          if status_eqb (status gs) REVEAL
          then (h, finishReveal_update (Some gs))
          else (h, Keep)
      | None => (h, Keep)
      end
  | TimerTick =>
      if status_eqb (status gs) QUESTION_ACTIVE
         && (0 <? timer gs)
         && negb (truthy_string (activePlayerId gs))
      then (h, TimerUpdater)
      else (h, Keep)
  | TimerExpired =>
      if status_eqb (status gs) QUESTION_ACTIVE
         && (timer gs =? 0)
         && negb (truthy_string (activePlayerId gs))
      then (h, skipQuestion_update (Some gs))
      else (h, Keep)
  | RevealTick =>
      match revealTimer gs with
      | Some r =>
          if status_eqb (status gs) REVEAL && negb (r =? 0) && (0 <? r)
          then (h, RevealUpdater)
          else (h, Keep)
      | None => (h, Keep)
      end
  | RevealExpired =>
      match revealTimer gs with
      | Some r =>
          if status_eqb (status gs) REVEAL && (r =? 0)
          then (h, finishReveal_update (Some gs))
          else (h, Keep)
      | None => (h, Keep)
      end
  | EditName n value =>
      match nth_error (players gs) n with
      | Some p =>
          if negb (String.eqb value (p_name p))
          then (h, Merge
                     [F_players
                        (map (fun pl => if String.eqb (p_id pl) (p_id p)
                                        then with_name value pl else pl)
                             (players gs))])
          else (h, Keep)
      | None => (h, Keep)
      end
  | EditScore n val =>
      match nth_error (players gs) n with
      | Some p =>
          if negb (val =? p_score p)
          then (h, Merge
                     [F_players
                        (map (fun pl => if String.eqb (p_id pl) (p_id p)
                                        then with_score val pl else pl)
                             (players gs))])
          else (h, Keep)
      | None => (h, Keep)
      end
  end.

(** Handling an event before the next render. *)
Definition live_fire (e : Event) (L : Live) : Live :=
  let (h, u) :=
    event_update e (gameStateRef L) (introRendered L) (react L) in
  enqueue u h L.

(** The render and its effect on [gameState]: [gameStateRef.current =
    gameState], and [broadcastState(gameState)] if the state object is a
    new one. *)
Definition commit (L : Live) : Live :=
  let g := gameState (react L) in
  mkLive (if dirty L then broadcastState g (react L) else react L)
         g (introPlayerIndex (react L)) false.

Inductive Step :=
| Handle (e : Event)
| Render.

Definition live_step (s : Step) (L : Live) : Live :=
  match s with
  | Handle e => live_fire e L
  | Render => commit L
  end.

Definition live_run (ss : list Step) (L : Live) : Live :=
  fold_left (fun acc s => live_step s acc) ss L.

Inductive live_reachable : Live -> Prop :=
| live_reachable_init : forall room theme0 random cs,
    live_reachable (settle (init_host room theme0 random cs))
| live_reachable_step : forall L s,
    live_reachable L -> live_reachable (live_step s L).

(** ** Concrete boards and hosts used by the examples below *)

Definition demo_question (i : string) (v : Z) : Question :=
  mkQuestion i v "clue" "response" false "Space" None None.

Definition demo_category (t a b c d e : string) : Category :=
  mkCategory t [demo_question a 200; demo_question b 400;
                demo_question c 600; demo_question d 800;
                demo_question e 1000].

Definition demo_board : list Category :=
  [demo_category "A" "q-0-0" "q-0-1" "q-0-2" "q-0-3" "q-0-4";
   demo_category "B" "q-1-0" "q-1-1" "q-1-2" "q-1-3" "q-1-4";
   demo_category "C" "q-2-0" "q-2-1" "q-2-2" "q-2-3" "q-2-4";
   demo_category "D" "q-3-0" "q-3-1" "q-3-2" "q-3-3" "q-3-4";
   demo_category "E" "q-4-0" "q-4-1" "q-4-2" "q-4-3" "q-4-4"].

Definition demo_player (i n : string) (score : Z) : Player :=
  mkPlayer i n score false None None.

(** A small board with one pending question, and a state in which player
    [p1] has buzzed in on it. *)
Definition small_board : list Category :=
  [mkCategory "A" [demo_question "q-0-0" 200; demo_question "q-0-1" 400]].

Definition answering_state : GameState :=
  mkGameState "ABCD" QUESTION_ACTIVE (Some (demo_question "q-0-1" 400))
    (Some "p1") [demo_player "p1" "Ann" 0; demo_player "p2" "Bob" 100]
    small_board "Space" 30 (Some 0) None None.

Definition answering_host : Host :=
  mkHost answering_state None (-1)
         [mkConn "peer-ann" true; mkConn "peer-bob" true] [].

(** The same question while the global lock set by [selectQuestion] at
    time [1000] is still in force. *)
Definition locked_host : Host :=
  with_gameState
    (merge answering_state
           [F_activePlayerId None; F_buzzerLockUntil (Some (1000 + one_hour))])
    answering_host.

(** A host whose controller slot is held by [peer-ctl], with a second
    device connected as [peer-new]. *)
Definition controlled_host : Host :=
  mkHost (merge answering_state [F_isHostControllerConnected (Some true)])
         (Some "peer-ctl") (-1)
         [mkConn "peer-ann" true; mkConn "peer-ctl" true;
          mkConn "peer-new" true] [].

Definition controller_join (i : string) : SyncMessage :=
  mkMsg T_PLAYER_JOIN
        (PlayerPayload (mkPlayer i "HOST_CONTROLLER" 0 false None None)) i.

(** A lobby: Ann and Bob have connected (PeerJS named their connections
    [peer-ann] and [peer-bob]) and joined under the player ids [p1] and
    [p2] that their clients drew for themselves. *)
Definition join (i n : string) : SyncMessage :=
  mkMsg T_PLAYER_JOIN (PlayerPayload (mkPlayer i n 0 false None None)) i.

Definition host_action (a : HostAction) (i : string) : SyncMessage :=
  mkMsg T_HOST_ACTION (ActionPayload a) i.

Definition lobby_events : list Event :=
  [Connection (mkConn "peer-ann" true); Receive (join "p1" "Ann") "peer-ann" 100;
   Connection (mkConn "peer-bob" true); Receive (join "p2" "Bob") "peer-bob" 200].

Definition lobby_host : Host :=
  run lobby_events (init_host "ABCD" "Space" (fun _ => O) demo_board).

(** From the lobby: the game starts, both players are introduced, the
    first question is picked, the buzzer is released and Ann buzzes in. *)
Definition buzz_events : list Event :=
  [ClickStartGame; IntroNextPlayer; IntroNextPlayer; IntroFinished;
   ClickQuestion 0 0 1000;
   Receive (host_action RELEASE_BUZZER "ctl") "peer-ctl" 2000;
   Receive (mkMsg T_BUZZ NoPayload "p1") "peer-ann" 3000].

Definition buzzed_host : Host := run buzz_events lobby_host.

(** The same, before Ann's buzz: the question is up, the buzzer has been
    released, nobody is answering. *)
Definition open_question_host : Host := run (removelast buzz_events) lobby_host.

(** A CONTINUE from the host's phone and Ann's BUZZ, handled one after the
    other before the host renders. *)
Definition continue_then_buzz : list Step :=
  [Handle (Receive (host_action CONTINUE "ctl") "peer-ctl" 2500);
   Handle (Receive (mkMsg T_BUZZ NoPayload "p1") "peer-ann" 2501);
   Render].

(** Ann answering a question worth 200 that is red (and golden as well),
    and one that is golden only. *)
Definition red_question : Question :=
  mkQuestion "q-0-0" 200 "clue" "response" false "Space" (Some true)
             (Some true).


Definition red_answering_host : Host :=
  with_gameState
    (merge answering_state [F_activeQuestion (Some red_question)])
    answering_host.


(** The same, after the host has set Ann's score to [2^60] by an
    OVERRIDE_SCORE. *)
Definition rich_host : Host :=
  handlePeerMessage
    (mkMsg T_HOST_ACTION (ActionPayload (OVERRIDE_SCORE "p1" (2 ^ 60))) "ctl")
    "peer-ctl" 3500 red_answering_host.

(** ** Predicates used in the statements *)

(** How a state [g'] that has left the REVEAL phase relates to the state
    [g] it left. *)
Definition every_question_answered (cs : list Category) : Prop :=
  forall cat q, In cat cs -> In q (questions cat) -> q_isAnswered q = true.

Definition after_reveal (g g' : GameState) : Prop :=
  (every_question_answered (categories g) -> status g' = FINISHED)
  /\ (~ every_question_answered (categories g) -> status g' = PLAYING)
  /\ activeQuestion g' = None
  /\ activePlayerId g' = None
  /\ players g' = players g
  /\ categories g' = categories g.

(** The controller slot is held by a peer other than [senderPeerId]. *)
Definition held_by_other (h : Host) (senderPeerId : string) : Prop :=
  exists holder, hostControllerPeerIdRef h = Some holder
                 /\ holder <> "" /\ holder <> senderPeerId.

(** The connection on which [peerId] talks to the host is open. *)
Definition connected (h : Host) (peerId : string) : Prop :=
  exists conn, find (fun c => String.eqb (peer c) peerId) (connections h)
               = Some conn /\ open conn = true.



(** The score of every player named [pid] moves by [delta]; nobody else's
    score moves, and nobody joins or leaves. *)
Definition scores_shifted (pid : string) (delta : Z) (ps ps' : list Player)
  : Prop :=
  Forall2 (fun p p' =>
             p_id p' = p_id p
             /\ p_score p' = if String.eqb (p_id p) pid
                             then p_score p + delta else p_score p)
          ps ps'.


(** No question of the board goes from answered to unanswered between
    [cs] and [cs'], and the board keeps its shape. *)
Definition answered_kept (cs cs' : list Category) : Prop :=
  Forall2 (fun c c' =>
             Forall2 (fun q q' =>
                        q_id q' = q_id q
                        /\ (q_isAnswered q = true -> q_isAnswered q' = true))
                     (questions c) (questions c'))
          cs cs'.





(** The number of questions of a board flagged golden, and flagged red. *)
Definition is_golden (q : Question) : bool := truthy_bool (q_isGolden q).
Definition is_red (q : Question) : bool := truthy_bool (q_isRed q).

Definition count_golden (cs : list Category) : nat :=
  List.length (filter is_golden (allQuestions cs)).

Definition count_red (cs : list Category) : nat :=
  List.length (filter is_red (allQuestions cs)).

(** A board as the generator and the static loader deliver it: no question
    carries a flag yet. *)
Definition unflagged (cs : list Category) : Prop :=
  Forall (fun q => is_golden q = false /\ is_red q = false)
         (allQuestions cs).

(** The [a]-th draw of the red loop: the shuffle has used up the first
    [n - 1] outcomes of [Math.random()]. *)
Definition red_draw (random : nat -> nat) (cs : list Category) (a : nat)
  : nat :=
  let n := List.length (allQuestions cs) in
  floor_random (random (n - 1 + a)%nat) n.

(** Outcomes of [Math.random()] for which every draw of the red loop lands
    on index 1 of a 25-question board, after a shuffle that made 1 golden. *)
Definition unlucky_random (k : nat) : nat :=
  if Nat.ltb k 24 then O else 1%nat.

(** What a counter-threading map computes on the flattened board: the
    function applied to each question together with its position. *)
Fixpoint imap (f : nat -> Question -> Question) (count : nat)
         (qs : list Question) : list Question :=
  match qs with
  | [] => []
  | q :: t => f count q :: imap f (S count) t
  end.

(** Where the element at position [k] of [swap i j a] comes from. *)
Definition swapped_from (i j k : nat) : nat :=
  if Nat.eqb k j then i else if Nat.eqb k i then j else k.

(** The array holds [n] distinct indices below [n]. *)
Definition is_arrangement (n : nat) (a : list nat) : Prop :=
  List.length a = n /\ NoDup a /\ forall x, In x a -> (x < n)%nat.

(** What the two flagging passes of [initGame] do, taken together, to the
    question at position [i] of the board. *)
Definition init_flag (random : nat -> nat) (cs : list Category) (i : nat)
           (q : Question) : Question :=
  (fun qCountRed q => if Z.of_nat qCountRed =? redIndex_of random cs
                      then with_isRed true q else q)
    i ((fun qCount q => if includes (goldenIndices_of random cs) qCount
                        then with_isGolden true q else q) i q).

(** ** The player's buzzer (PlayerView)

    [handleBuzz] decides on the replica [gameState] which action the
    player's device sends, if any; [sendAction] stamps it with the
    player's id. *)
Definition handleBuzz (replica : option GameState) (localPlayerId : string)
           (now : Z) : option MessageType :=
  match replica with
  | None => None
  | Some g =>
      if negb (status_eqb (status g) QUESTION_ACTIVE)
         || truthy_string (activePlayerId g)
      then None
      else
        let player :=
          find (fun p => String.eqb (p_id p) localPlayerId) (players g) in
        let isGlobalLocked := global_lock_active g now in
        let isLocalLocked := individual_lock_active player now in
        if isGlobalLocked || isLocalLocked
        then Some T_BUZZ_LOCKED_ATTEMPT
        else Some T_BUZZ
  end.

Definition sendAction (type : MessageType) (pl : Payload)
           (currentPlayerId : string) : SyncMessage :=
  mkMsg type pl currentPlayerId.

(** ** Room codes (gameSync.ts) *)

Definition chars : string := "ABCDEFGHIJKLMNPQRSTUVWXYZ".

(** [s.charAt(i)]: the empty string outside the string. *)
Definition charAt (s : string) (i : nat) : string :=
  match String.get i s with
  | Some c => String c EmptyString
  | None => EmptyString
  end.

(** [Array.from({ length: 4 }, () => chars.charAt(Math.floor(Math.random()
    * chars.length))).join('')] *)
Definition generateRoomCode (random : nat -> nat) : string :=
  String.concat ""
    (map (fun k => charAt chars
                     (floor_random (random k) (String.length chars)))
         (seq 0 4)).

(** ** Boards (geminiService.ts, staticGameService.ts)

    What the model returns, and what the data file holds, per question:
    an object with the three properties the response schema requires.
    The loaders copy it whole ([...q]) before they set [id], [isAnswered]
    and [category], so whatever else of a [Question] it carries comes
    along: an [id], [isAnswered] or [category] of its own is overwritten,
    an [isGolden] or [isRed] is kept. *)
Record RawQuestion := mkRawQuestion {
  raw_id : option string;
  raw_value : Z;
  raw_question : string;
  raw_answer : string;
  raw_isAnswered : option bool;
  raw_category : option string;
  raw_isGolden : option bool;
  raw_isRed : option bool
}.

Record RawCategory := mkRawCategory {
  raw_title : string;
  raw_questions : list RawQuestion
}.

(** A number inside a template literal: its decimal digits. *)
Definition decimal (n : nat) : string :=
  NilEmpty.string_of_uint (Nat.to_uint n).

(** [array.map((x, idx) => ...)], counting from [i]. *)
Fixpoint map_indexed {A B : Type} (f : A -> nat -> B) (i : nat) (l : list A)
  : list B :=
  match l with
  | [] => []
  | x :: t => f x i :: map_indexed f (S i) t
  end.


Definition loadMedicalBoard (medicalQuestions : list RawCategory)
  : list Category :=
  map_indexed
    (fun cat cIdx =>
       mkCategory (raw_title cat)
         (map_indexed
            (fun q qIdx =>
               mkQuestion ("static-" ++ decimal cIdx ++ "-" ++ decimal qIdx)
                          (raw_value q) (raw_question q) (raw_answer q)
                          false (raw_title cat) (raw_isGolden q) (raw_isRed q))
            0 (raw_questions cat)))
    0 medicalQuestions.




(** A data file of one category and two questions; the second says it is
    answered, red, and has an id of its own. *)
Definition flagged_raw : list RawCategory :=
  [mkRawCategory "Anatomy"
     [mkRawQuestion None 200 "clue" "response" None None None None;
      mkRawQuestion (Some "mine") 400 "clue" "response" (Some true)
                    (Some "Other") None (Some true)]].


(** Category [c'] is category [c] with, at most, other flags on its
    questions. *)
Definition same_category_but_flags (c c' : Category) : Prop :=
  title c' = title c
  /\ Forall2 (fun q q' =>
                q_id q' = q_id q /\ q_value q' = q_value q
                /\ q_question q' = q_question q /\ q_answer q' = q_answer q
                /\ q_isAnswered q' = q_isAnswered q
                /\ q_category q' = q_category q)
             (questions c) (questions c').

(** The events that are meant to change who plays or what they have
    scored: a join, a kick, a judged answer, a score set by hand. *)
Definition changes_roster_or_scores (e : Event) : bool :=
  match e with
  | Receive msg _ _ =>
      match msg_type msg, payload msg with
      | T_PLAYER_JOIN, _ => true
      | T_HOST_ACTION, ActionPayload (CORRECT _) => true
      | T_HOST_ACTION, ActionPayload (INCORRECT _) => true
      | T_HOST_ACTION, ActionPayload (OVERRIDE_SCORE _ _) => true
      | T_HOST_ACTION, ActionPayload (KICK_PLAYER _) => true
      | _, _ => false
      end
  | ClickCorrect | ClickIncorrect _ | EditScore _ _ => true
  | _ => false
  end.

(** The scoreboard: who plays, with what score. *)
Definition scoreboard (g : GameState) : list (string * Z) :=
  map (fun p => (p_id p, p_score p)) (players g).

(** ** Further predicates *)

(** [aq] is the question [q], whatever their [isAnswered]. *)
Definition same_question (q aq : Question) : Prop :=
  with_isAnswered true q = with_isAnswered true aq.

(** [q'] is [q] with, at most, other flags. *)
Definition same_but_flags (q q' : Question) : Prop :=
  q_id q' = q_id q /\ q_value q' = q_value q
  /\ q_question q' = q_question q /\ q_answer q' = q_answer q
  /\ q_isAnswered q' = q_isAnswered q /\ q_category q' = q_category q.

(** The snapshot of [h]'s state, addressed to each open connection in
    connection order. *)
Definition snapshots (h : Host) : list (string * SyncMessage) :=
  map (fun c => (peer c, UPDATE_STATE_msg (gameState h)))
      (filter open (connections h)).

(** Between [h] and [h'] the host has sent at most one reply to a single
    peer, REJECTED or KICKED, and after it either nothing or the snapshot
    of the state of [h'] on every open connection of [h']. *)
Definition emits (h h' : Host) : Prop :=
  exists direct snaps,
    sent h' = (sent h ++ direct ++ snaps)%list
    /\ (direct = []
        \/ exists to, direct = [(to, REJECTED_msg)]
                      \/ direct = [(to, KICKED_msg)])
    /\ (snaps = [] \/ snaps = snapshots h').


(** The game state is one that the buzzer is armed in: a question is up,
    nobody is answering. *)
Definition awaiting_buzz (g : GameState) : Prop :=
  status g = QUESTION_ACTIVE /\ truthy_string (activePlayerId g) = false.

(** An active question is present exactly in the phases QUESTION_ACTIVE
    and REVEAL, and it is
    a question of the board. *)
Definition active_question_wf (g : GameState) : Prop :=
  (activeQuestion g <> None
   <-> status g = QUESTION_ACTIVE \/ status g = REVEAL)
  /\ (forall aq, activeQuestion g = Some aq ->
                 exists q, In q (allQuestions (categories g))
                           /\ same_question q aq).


(** A whole game on a board of a single question: Ann joins, the game
    starts, the question is picked and skipped, and the host continues. *)
Definition tiny_board : list Category :=
  [mkCategory "A" [demo_question "q-0-0" 200]].

Definition tiny_game : list Event :=
  [Connection (mkConn "peer-ann" true);
   Receive (join "p1" "Ann") "peer-ann" 100;
   ClickStartGame; IntroNextPlayer; IntroFinished;
   ClickQuestion 0 0 1000; ClickSkip; ClickContinue].

Definition finished_host : Host :=
  run tiny_game (init_host "ABCD" "Space" (fun _ => O) tiny_board).

(** The same game before the last CONTINUE: the only question has been
    skipped and its answer is on show. *)
Definition tiny_reveal_host : Host :=
  run (removelast tiny_game)
      (init_host "ABCD" "Space" (fun _ => O) tiny_board).

(** * Properties *)

(** ** Frame lemmas: sending touches nothing but the log *)

Section Frames.

Lemma status_eqb_eq (a b : Status) : status_eqb a b = true <-> a = b.
Proof. destruct a, b; simpl; split; congruence. Qed.

Lemma broadcast_fold_gameState (g : GameState) (cs : list DataConnection) :
  forall h,
    gameState
      (fold_left
         (fun acc conn =>
            if open conn then log_send (peer conn) (UPDATE_STATE_msg g) acc
            else acc) cs h)
    = gameState h.
Proof.
  induction cs as [|c cs IH]; intro h; simpl; [reflexivity|].
  rewrite IH. destruct (open c); reflexivity.
Qed.

Lemma broadcast_fold_ref (g : GameState) (cs : list DataConnection) :
  forall h,
    hostControllerPeerIdRef
      (fold_left
         (fun acc conn =>
            if open conn then log_send (peer conn) (UPDATE_STATE_msg g) acc
            else acc) cs h)
    = hostControllerPeerIdRef h.
Proof.
  induction cs as [|c cs IH]; intro h; simpl; [reflexivity|].
  rewrite IH. destruct (open c); reflexivity.
Qed.

Lemma broadcast_fold_connections (g : GameState)
      (cs : list DataConnection) :
  forall h,
    connections
      (fold_left
         (fun acc conn =>
            if open conn then log_send (peer conn) (UPDATE_STATE_msg g) acc
            else acc) cs h)
    = connections h.
Proof.
  induction cs as [|c cs IH]; intro h; simpl; [reflexivity|].
  rewrite IH. destruct (open c); reflexivity.
Qed.

Lemma broadcastState_gameState g h :
  gameState (broadcastState g h) = gameState h.
Proof. apply broadcast_fold_gameState. Qed.

Lemma broadcastState_ref g h :
  hostControllerPeerIdRef (broadcastState g h) = hostControllerPeerIdRef h.
Proof. apply broadcast_fold_ref. Qed.

Lemma broadcastState_connections g h :
  connections (broadcastState g h) = connections h.
Proof. apply broadcast_fold_connections. Qed.

Lemma setGameState_gameState g h : gameState (setGameState g h) = g.
Proof. unfold setGameState. now rewrite broadcastState_gameState. Qed.

Lemma setGameState_ref g h :
  hostControllerPeerIdRef (setGameState g h) = hostControllerPeerIdRef h.
Proof. unfold setGameState. now rewrite broadcastState_ref. Qed.

Lemma updateAndBroadcast_gameState partial h :
  gameState (updateAndBroadcast partial h) = merge (gameState h) partial.
Proof. apply setGameState_gameState. Qed.

Lemma updateAndBroadcast_ref partial h :
  hostControllerPeerIdRef (updateAndBroadcast partial h)
  = hostControllerPeerIdRef h.
Proof. apply setGameState_ref. Qed.

Lemma sendToPeer_gameState i m h :
  gameState (sendToPeer i m h) = gameState h.
Proof.
  unfold sendToPeer.
  destruct (find _ _) as [c|]; [destruct (open c)|]; reflexivity.
Qed.

Lemma sendToPeer_ref i m h :
  hostControllerPeerIdRef (sendToPeer i m h) = hostControllerPeerIdRef h.
Proof.
  unfold sendToPeer.
  destruct (find _ _) as [c|]; [destruct (open c)|]; reflexivity.
Qed.

Lemma sendToPeer_connections i m h :
  connections (sendToPeer i m h) = connections h.
Proof.
  unfold sendToPeer.
  destruct (find _ _) as [c|]; [destruct (open c)|]; reflexivity.
Qed.

End Frames.

Ltac frame :=
  repeat first
    [ rewrite updateAndBroadcast_gameState
    | rewrite setGameState_gameState
    | rewrite sendToPeer_gameState
    | rewrite updateAndBroadcast_ref
    | rewrite setGameState_ref
    | rewrite sendToPeer_ref ].

(** ** Handling an event and rendering it is [fire] *)

Lemma broadcast_fold_intro (g : GameState) (cs : list DataConnection) :
  forall i h,
    fold_left
      (fun acc conn =>
         if open conn then log_send (peer conn) (UPDATE_STATE_msg g) acc
         else acc) cs (with_introPlayerIndex i h)
    = with_introPlayerIndex i
        (fold_left
           (fun acc conn =>
              if open conn then log_send (peer conn) (UPDATE_STATE_msg g) acc
              else acc) cs h).
Proof.
  induction cs as [|c cs IH]; intros i h; simpl; [reflexivity|].
  destruct (open c); [|apply IH].
  change (log_send (peer c) (UPDATE_STATE_msg g) (with_introPlayerIndex i h))
    with (with_introPlayerIndex i
            (log_send (peer c) (UPDATE_STATE_msg g) h)).
  apply IH.
Qed.

Lemma broadcastState_intro (g : GameState) (i : Z) (h : Host) :
  broadcastState g (with_introPlayerIndex i h)
  = with_introPlayerIndex i (broadcastState g h).
Proof. apply broadcast_fold_intro. Qed.

Lemma broadcastState_introPlayerIndex (g : GameState) (h : Host) :
  introPlayerIndex (broadcastState g h) = introPlayerIndex h.
Proof.
  unfold broadcastState. generalize h at 2 3.
  induction (connections h) as [|c cs IH]; intro h0; simpl; [reflexivity|].
  rewrite IH. destruct (open c); reflexivity.
Qed.

Lemma commit_enqueue_merge (partial : list Field) (h h0 : Host) :
  commit (enqueue (Merge partial) h (settle h0))
  = settle (updateAndBroadcast partial h).
Proof.
  unfold commit, enqueue, settle, updateAndBroadcast, setGameState.
  cbn [apply_update react dirty gameState with_gameState].
  rewrite broadcastState_introPlayerIndex, broadcastState_gameState.
  reflexivity.
Qed.

Lemma commit_enqueue_keep (h h0 : Host) :
  commit (enqueue Keep h (settle h0)) = settle h.
Proof. reflexivity. Qed.

Lemma commit_enqueue_select (q : Question) (now : Z) (h h0 : Host) :
  commit (enqueue (SelectUpdater q now) h (settle h0))
  = settle (selectQuestion q now h).
Proof.
  unfold commit, enqueue, settle, selectQuestion, setGameState.
  cbn [apply_update].
  destruct (negb (status_eqb (status (gameState h)) PLAYING));
    [reflexivity|].
  cbn [react dirty gameState with_gameState].
  rewrite broadcastState_introPlayerIndex, broadcastState_gameState.
  reflexivity.
Qed.

Lemma commit_enqueue_timer (h h0 : Host) :
  commit (enqueue TimerUpdater h (settle h0))
  = settle (setGameState
              (merge (gameState h) [F_timer (timer (gameState h) - 1)]) h).
Proof.
  unfold commit, enqueue, settle, setGameState.
  cbn [apply_update react dirty gameState with_gameState].
  rewrite broadcastState_introPlayerIndex, broadcastState_gameState.
  reflexivity.
Qed.

Lemma commit_enqueue_reveal (r : Z) (h h0 : Host) :
  revealTimer (gameState h) = Some r ->
  status_eqb (status (gameState h)) REVEAL && negb (r =? 0) && (0 <? r)
  = true ->
  commit (enqueue RevealUpdater h (settle h0))
  = settle (setGameState
              (merge (gameState h) [F_revealTimer (Some (r - 1))]) h).
Proof.
  intros Hr Hg. apply andb_true_iff in Hg as [Hg _].
  apply andb_true_iff in Hg as [Hs Hz].
  unfold commit, enqueue, settle, setGameState.
  cbn [apply_update]. rewrite Hr. cbn [truthy_number].
  rewrite Hs, Hz. cbn [negb orb react dirty gameState with_gameState].
  rewrite broadcastState_introPlayerIndex, broadcastState_gameState.
  reflexivity.
Qed.

Lemma updateAndBroadcast_intro (partial : list Field) (i : Z) (h : Host) :
  updateAndBroadcast partial (with_introPlayerIndex i h)
  = with_introPlayerIndex i (updateAndBroadcast partial h).
Proof.
  unfold updateAndBroadcast, setGameState.
  change (with_gameState (merge (gameState (with_introPlayerIndex i h))
                                partial) (with_introPlayerIndex i h))
    with (with_introPlayerIndex i
            (with_gameState (merge (gameState h) partial) h)).
  apply broadcastState_intro.
Qed.

(** A host that renders each update before it handles the next event is
    the host of [fire]. *)
Lemma commit_live_fire (e : Event) (h : Host) :
  commit (live_fire e (settle h)) = settle (fire e h).
Proof.
  unfold live_fire.
  destruct e as [msg senderPeerId now| | | | | | | | | | | | | | | | |];
    cbn [event_update fire settle gameStateRef introRendered react];
    unfold handlePeerMessage_update, handlePeerMessage,
      handleHostAction_update, handleHostAction,
      onDisconnect_update, onDisconnect,
      startGame_update, startGame, handleCorrect_update, handleCorrect,
      handleIncorrect_update, handleIncorrect,
      skipQuestion_update, skipQuestion,
      finishReveal_update, finishReveal, first_render_gameState;
    repeat match goal with
           | |- context [match ?x with _ => _ end] => destruct x eqn:?
           end;
    repeat match goal with
           | H : (_, _) = (_, _) |- _ => injection H as <- <-
           end;
    try reflexivity;
    try (rewrite commit_enqueue_merge; rewrite ?updateAndBroadcast_intro;
         reflexivity);
    try (apply commit_enqueue_select);
    try (apply commit_enqueue_timer).
  all: eapply commit_enqueue_reveal; eassumption.
Qed.

Ltac guard_facts :=
  repeat match goal with
         | H : (_ && _)%bool = true |- _ =>
             apply andb_true_iff in H; destruct H
         | H : status_eqb _ _ = true |- _ => apply status_eqb_eq in H
         end.

Ltac split_branches :=
  repeat match goal with
         | |- context [match ?x with _ => _ end] => destruct x eqn:?
         end.

Lemma live_fire_eq (e : Event) (L : Live) :
  live_fire e L
  = enqueue (snd (event_update e (gameStateRef L) (introRendered L) (react L)))
            (fst (event_update e (gameStateRef L) (introRendered L) (react L)))
            L.
Proof. unfold live_fire. now destruct (event_update _ _ _ _). Qed.

Ltac live_cases :=
  rewrite ?live_fire_eq in *; cbn [event_update] in *;
  unfold handlePeerMessage_update, handleHostAction_update,
    onDisconnect_update, startGame_update, handleCorrect_update,
    handleIncorrect_update, skipQuestion_update, finishReveal_update,
    first_render_gameState in *;
  cbv zeta in *; split_branches; cbn [fst snd] in *;
  unfold enqueue in *; cbn [apply_update] in *; cbv zeta in *;
  split_branches;
  cbn [react gameState with_introPlayerIndex with_connections
       with_hostControllerPeerIdRef with_gameState] in *;
  rewrite ?sendToPeer_gameState in *;
  unfold merge in *;
  cbn [fold_left assign status activePlayerId activeQuestion players
       categories] in *.


Lemma reachable_settled (h : Host) :
  reachable h -> live_reachable (settle h).
Proof.
  induction 1 as [room theme0 random cs | h e _ IH].
  - apply live_reachable_init.
  - rewrite <- commit_live_fire.
    apply (live_reachable_step _ Render).
    apply (live_reachable_step _ (Handle e)). exact IH.
Qed.

Lemma live_reachable_run (ss : list Step) :
  forall L, live_reachable L -> live_reachable (live_run ss L).
Proof.
  induction ss as [|s ss IH]; intros L HL; [exact HL|].
  apply IH. now apply live_reachable_step.
Qed.

(** ** C10: HOST_ACTION is applied whoever sent it *)

(** C10.  The host applies a HOST_ACTION without looking at who sent it:
    for one and the same payload, host state and clock, two envelopes that
    differ in [senderId] and arrive from two different peers yield the
    same host (state, controller slot, connections and messages sent). *)
Theorem host_action_ignores_sender :
  forall (pl : Payload) (sender1 sender2 peer1 peer2 : string) (now : Z)
         (h : Host),
    handlePeerMessage (mkMsg T_HOST_ACTION pl sender1) peer1 now h
    = handlePeerMessage (mkMsg T_HOST_ACTION pl sender2) peer2 now h.
Proof.
  intros pl s1 s2 p1 p2 now h.
  unfold handlePeerMessage; cbn [msg_type payload].
  destruct pl; reflexivity.
Qed.

(** ** C2: buzzing against a lock *)

Lemma find_unique_id (ps : list Player) (p : Player) :
  NoDup (map p_id ps) -> In p ps ->
  find (fun x => String.eqb (p_id x) (p_id p)) ps = Some p.
Proof.
  induction ps as [|a ps IH]; simpl; intros Hnd Hin; [contradiction|].
  inversion Hnd as [|? ? Hnotin Hnd']; subst.
  destruct Hin as [->|Hin].
  - now rewrite String.eqb_refl.
  - destruct (String.eqb (p_id a) (p_id p)) eqn:E.
    + apply String.eqb_eq in E. exfalso. apply Hnotin.
      rewrite E. now apply in_map.
    + now apply IH.
Qed.

(** C2.  With the host clock at [now] (epoch milliseconds, so not
    negative) and player ids unique: a BUZZ whose sender is under an
    unexpired global lock or an unexpired personal lock ([now < lockUntil])
    leaves the host exactly as it was, so [activePlayerId] is not set and
    nothing is sent; and a BUZZ_LOCKED_ATTEMPT, in any state, sets the
    personal [buzzerLockUntil] of the sender's player record to
    [now + 2000], leaves every other record as it was, and does not touch
    [activePlayerId]. *)
Theorem locked_buzz_and_penalty :
  forall (h : Host) (pl : Payload) (sender senderPeerId : string) (now : Z),
    0 <= now ->
    NoDup (map p_id (players (gameState h))) ->
    ((exists l, buzzerLockUntil (gameState h) = Some l /\ now < l)
     \/ (exists p l, In p (players (gameState h)) /\ p_id p = sender
                     /\ p_buzzerLockUntil p = Some l /\ now < l)
     -> handlePeerMessage (mkMsg T_BUZZ pl sender) senderPeerId now h = h)
    /\
    (let h' := handlePeerMessage (mkMsg T_BUZZ_LOCKED_ATTEMPT pl sender)
                                 senderPeerId now h in
     activePlayerId (gameState h') = activePlayerId (gameState h)
     /\ Forall2
          (fun p p' =>
             p_id p' = p_id p /\ p_score p' = p_score p
             /\ p_buzzerLockUntil p' =
                  if String.eqb (p_id p) sender then Some (now + 2000)
                  else p_buzzerLockUntil p)
          (players (gameState h)) (players (gameState h'))).
Proof.
  intros h pl sender peerId now Hnow Hnd. split.
  - intros Hlock. unfold handlePeerMessage; cbn [msg_type senderId].
    destruct (status_eqb (status (gameState h)) QUESTION_ACTIVE
              && negb (truthy_string (activePlayerId (gameState h))));
      [|reflexivity].
    destruct Hlock as [(l & Hl & Hlt) | (p & l & Hin & Hid & Hl & Hlt)].
    + assert (Hg : global_lock_active (gameState h) now = true).
      { unfold global_lock_active, truthy_number. rewrite Hl.
        apply andb_true_iff; split.
        - apply negb_true_iff, Z.eqb_neq. lia.
        - apply Z.ltb_lt. lia. }
      rewrite Hg. now destruct (individual_lock_active _ _).
    + subst sender. rewrite (find_unique_id _ _ Hnd Hin).
      assert (Hi : individual_lock_active (Some p) now = true).
      { unfold individual_lock_active, truthy_number. rewrite Hl.
        apply andb_true_iff; split.
        - apply negb_true_iff, Z.eqb_neq. lia.
        - apply Z.ltb_lt. lia. }
      now rewrite Hi.
  - unfold handlePeerMessage; cbn [msg_type senderId]. cbv zeta.
    frame. unfold merge; simpl. split; [reflexivity|].
    induction (players (gameState h)) as [|a ps IH]; simpl; constructor.
    + destruct (String.eqb (p_id a) sender); simpl; auto.
    + apply IH. now inversion Hnd.
Qed.

(** At time 5000 the global lock of [locked_host] (set at 1000 for an
    hour) is in force: Bob's BUZZ is dropped and his attempt is penalised. *)
Lemma locked_buzz_and_penalty_witness :
  0 <= 5000
  /\ NoDup (map p_id (players (gameState locked_host)))
  /\ handlePeerMessage (mkMsg T_BUZZ NoPayload "p2") "peer-bob" 5000
                       locked_host = locked_host
  /\ map p_buzzerLockUntil
         (players
            (gameState
               (handlePeerMessage (mkMsg T_BUZZ_LOCKED_ATTEMPT NoPayload "p2")
                                  "peer-bob" 5000 locked_host)))
     = [None; Some 7000].
Proof.
  assert (Hnd : NoDup (map p_id (players (gameState locked_host)))).
  { simpl. repeat constructor; simpl; intuition congruence. }
  split; [lia|]. split; [exact Hnd|].
  destruct (locked_buzz_and_penalty locked_host NoPayload "p2" "peer-bob"
              5000 ltac:(lia) Hnd) as [Hbuzz _].
  split.
  - apply Hbuzz. left. exists (1000 + one_hour). split; [reflexivity|].
    vm_compute. reflexivity.
  - vm_compute. reflexivity.
Defined.

(** ** C6: leaving the REVEAL phase *)

Lemma allAnswered_spec (cs : list Category) :
  allAnswered cs = true <-> every_question_answered cs.
Proof.
  unfold allAnswered, every_question_answered.
  rewrite forallb_forall. split.
  - intros H cat q Hc Hq. specialize (H cat Hc).
    rewrite forallb_forall in H. now apply H.
  - intros H cat Hc. apply forallb_forall. intros q Hq. now apply (H cat).
Qed.

Lemma leaves_reveal (g g' : GameState) :
  status g' = (if allAnswered (categories g) then FINISHED else PLAYING) ->
  activeQuestion g' = None -> activePlayerId g' = None ->
  players g' = players g -> categories g' = categories g ->
  after_reveal g g'.
Proof.
  intros Hs Hq Hp Hpl Hc. unfold after_reveal.
  pose proof (allAnswered_spec (categories g)) as Hall.
  destruct (allAnswered (categories g)); rewrite Hs;
    repeat split; auto; intro H.
  - exfalso. apply H. now apply Hall.
  - apply Hall in H. discriminate.
Qed.

Lemma finishReveal_after_reveal (h : Host) :
  after_reveal (gameState h) (gameState (finishReveal (Some (gameState h)) h)).
Proof.
  unfold finishReveal.
  apply leaves_reveal;
    destruct (allAnswered (categories (gameState h))); frame;
    unfold merge; simpl; auto.
Qed.

(** C6.  In a state whose status is REVEAL, each way the phase ends, the
    reveal countdown standing at [0] (the effect then runs [finishReveal]),
    the host's own CONTINUE button, or a CONTINUE action from a peer, moves
    the state to FINISHED when every question of every category has
    [isAnswered] true and to PLAYING when some question has not, and
    clears [activeQuestion] and [activePlayerId]; players and board stay
    as they are. *)
Theorem reveal_end_transition :
  forall (h : Host),
    status (gameState h) = REVEAL ->
    (revealTimer (gameState h) = Some 0 ->
     after_reveal (gameState h) (gameState (fire RevealExpired h)))
    /\ (activeQuestion (gameState h) <> None ->
        after_reveal (gameState h) (gameState (fire ClickContinue h)))
    /\ (forall sender senderPeerId now,
          after_reveal (gameState h)
            (gameState
               (handlePeerMessage
                  (mkMsg T_HOST_ACTION (ActionPayload CONTINUE) sender)
                  senderPeerId now h))).
Proof.
  intros h Hst. split; [|split].
  - intros Hr. cbn [fire]. rewrite Hr, Hst. cbn.
    apply finishReveal_after_reveal.
  - intros Haq. cbn [fire]. rewrite Hst.
    destruct (activeQuestion (gameState h)); [|congruence]. cbn.
    apply finishReveal_after_reveal.
  - intros sender senderPeerId now.
    unfold handlePeerMessage; cbn [msg_type payload handleHostAction].
    apply leaves_reveal;
      destruct (allAnswered (categories (gameState h))); frame;
      unfold merge; simpl; auto.
Qed.

(** Both outcomes.  With the second question of [small_board] still
    pending, the reveal countdown running out leads back to PLAYING; once
    the only question of [tiny_board] has been skipped, CONTINUE, from the
    host's button or from a peer, ends the game. *)
Lemma reveal_end_transition_witness :
  let h := with_gameState
             (merge answering_state
                    [F_status REVEAL; F_revealTimer (Some 0)])
             answering_host in
  status (gameState h) = REVEAL
  /\ ~ every_question_answered (categories (gameState h))
  /\ status (gameState (fire RevealExpired h)) = PLAYING
  /\ activePlayerId (gameState (fire RevealExpired h)) = None
  /\ status (gameState tiny_reveal_host) = REVEAL
  /\ every_question_answered (categories (gameState tiny_reveal_host))
  /\ status (gameState (fire ClickContinue tiny_reveal_host)) = FINISHED
  /\ status (gameState
               (handlePeerMessage
                  (mkMsg T_HOST_ACTION (ActionPayload CONTINUE) "ctl")
                  "peer-ctl" 9000 tiny_reveal_host)) = FINISHED
  /\ activeQuestion (gameState (fire ClickContinue tiny_reveal_host)) = None.
Proof.
  intro h.
  assert (Hpending : ~ every_question_answered (categories (gameState h))).
  { intro H. apply allAnswered_spec in H. discriminate H. }
  assert (Hdone : every_question_answered
                    (categories (gameState tiny_reveal_host))).
  { apply allAnswered_spec. reflexivity. }
  destruct (reveal_end_transition h eq_refl) as [Hexp _].
  destruct (Hexp eq_refl) as (_ & Hplay & _ & Hp & _).
  destruct (reveal_end_transition tiny_reveal_host eq_refl)
    as (_ & Hclick & Hpeer).
  destruct (Hclick ltac:(discriminate)) as (Hfin & _ & Hq & _).
  destruct (Hpeer "ctl" "peer-ctl" 9000) as (Hfin' & _).
  split; [reflexivity|]. split; [exact Hpending|].
  split; [exact (Hplay Hpending)|]. split; [exact Hp|].
  split; [reflexivity|]. split; [exact Hdone|].
  split; [exact (Hfin Hdone)|]. split; [exact (Hfin' Hdone)|]. exact Hq.
Defined.

(** ** C9: the controller slot *)

Lemma held_by_other_guard (h : Host) (senderPeerId : string) :
  held_by_other h senderPeerId <->
  truthy_string (hostControllerPeerIdRef h)
  && negb (id_is (hostControllerPeerIdRef h) senderPeerId) = true.
Proof.
  unfold held_by_other, truthy_string, id_is.
  destruct (hostControllerPeerIdRef h) as [r|]; simpl.
  - rewrite andb_true_iff, !negb_true_iff. split.
    + intros (holder & Heq & Hne & Hns). injection Heq as <-.
      split; apply String.eqb_neq; congruence.
    + intros [H1 H2]. exists r. apply String.eqb_neq in H1, H2.
      repeat split; congruence.
  - split; [intros (? & ? & _); discriminate | discriminate].
Qed.

(** C9.  The slot is one cell, [hostControllerPeerIdRef], so it has at most
    one holder.  A PLAYER_JOIN named with the controller sentinel that
    arrives from [senderPeerId] while the slot is held by another peer
    leaves the holder and the whole game state (the players list with it)
    as they were, and the only message sent is a REJECTED reply to
    [senderPeerId], sent when its connection is open.  In every other case
    [senderPeerId] becomes the holder and [isHostControllerConnected]
    becomes true, again without the players list changing. *)
Theorem controller_slot :
  forall (h : Host) (newPlayer : Player) (sender senderPeerId : string)
         (now : Z),
    p_name newPlayer = "HOST_CONTROLLER" ->
    let h' := handlePeerMessage
                (mkMsg T_PLAYER_JOIN (PlayerPayload newPlayer) sender)
                senderPeerId now h in
    (held_by_other h senderPeerId ->
     hostControllerPeerIdRef h' = hostControllerPeerIdRef h
     /\ gameState h' = gameState h
     /\ (connected h senderPeerId ->
         sent h' = (sent h ++ [(senderPeerId, REJECTED_msg)])%list))
    /\ (~ held_by_other h senderPeerId ->
        hostControllerPeerIdRef h' = Some senderPeerId
        /\ isHostControllerConnected (gameState h') = Some true
        /\ players (gameState h') = players (gameState h)).
Proof.
  intros h newPlayer sender senderPeerId now Hname h'. subst h'.
  unfold handlePeerMessage; cbn [msg_type payload]. rewrite Hname.
  replace (String.eqb "HOST_CONTROLLER" "HOST_CONTROLLER") with true
    by reflexivity.
  split; intros Hheld.
  - apply held_by_other_guard in Hheld. rewrite Hheld.
    frame. repeat split.
    intros (conn & Hfind & Hopen). unfold sendToPeer.
    rewrite Hfind, Hopen. cbn.
    apply find_some in Hfind. destruct Hfind as [_ Hp].
    apply String.eqb_eq in Hp. now rewrite Hp.
  - destruct (truthy_string (hostControllerPeerIdRef h)
              && negb (id_is (hostControllerPeerIdRef h) senderPeerId))
      eqn:E.
    + exfalso. apply Hheld. now apply held_by_other_guard.
    + frame. unfold merge; simpl. auto.
Qed.

(** A second controller, [peer-new], is turned away while [peer-ctl] holds
    the slot. *)
Lemma controller_slot_witness :
  let h' := handlePeerMessage (controller_join "x7") "peer-new" 5000
                              controlled_host in
  held_by_other controlled_host "peer-new"
  /\ connected controlled_host "peer-new"
  /\ hostControllerPeerIdRef h' = Some "peer-ctl"
  /\ players (gameState h') = players (gameState controlled_host)
  /\ sent h' = [("peer-new", REJECTED_msg)].
Proof.
  intro h'.
  assert (Hheld : held_by_other controlled_host "peer-new").
  { exists "peer-ctl". repeat split; discriminate. }
  assert (Hconn : connected controlled_host "peer-new").
  { exists (mkConn "peer-new" true). split; reflexivity. }
  destruct (controller_slot controlled_host
              (mkPlayer "x7" "HOST_CONTROLLER" 0 false None None)
              "x7" "peer-new" 5000 eq_refl) as [Hrej _].
  destruct (Hrej Hheld) as (Href & Hgs & Hsent).
  split; [exact Hheld|]. split; [exact Hconn|].
  split; [exact Href|]. split.
  - unfold h', controller_join. now rewrite Hgs.
  - exact (Hsent Hconn).
Defined.

(** ** C1: scoring a resolution *)









(** C1 as stated fails.  The host has set Ann's score to [2^60], a value
    a number holds; she answers the red question worth 200 correctly.  Her
    score does not go up by [200 * 5]: doubles near [2^60] are 256 apart,
    and the sum is rounded to [2^60 + 1024]. *)
Lemma rounded_award :
  let g := gameState rich_host in
  let g' := gameState (fire ClickCorrect rich_host) in
  status g = QUESTION_ACTIVE
  /\ activeQuestion g = Some red_question
  /\ activePlayerId g = Some "p1"
  /\ map p_score (players g) = [2 ^ 60; 100]
  /\ map p_score (players g') = [2 ^ 60 + 1024; 100]
  /\ ~ scores_shifted "p1" (200 * 5) (players g) (players g').
Proof.
  cbv zeta. repeat (split; [reflexivity|]).
  intro H. vm_compute in H. inversion H as [|? ? ? ? [_ Hs] _]; subst.
  discriminate Hs.
Qed.

(** ** C4: a second CORRECT during REVEAL *)

(** C4.  Ann's answer to the 400-point question has been judged correct
    and the state is in REVEAL, with [activeQuestion] and [activePlayerId]
    kept for display.  A HOST_ACTION CORRECT that arrives now is not
    dropped: it awards the 400 points a second time.  The host's own
    CORRECT button, [handleCorrect], checks the phase and does nothing. *)
Theorem remote_correct_in_reveal_scores_again :
  let h := fire ClickCorrect answering_host in
  let h' := handlePeerMessage (host_action (CORRECT "p1") "ctl") "peer-ctl"
                              9000 h in
  status (gameState h) = REVEAL
  /\ map p_score (players (gameState h)) = [400; 100]
  /\ map p_score (players (gameState h')) = [800; 100]
  /\ gameState h' <> gameState h
  /\ handleCorrect (Some (gameState h)) h = h.
Proof.
  cbv zeta. split; [reflexivity|]. split; [reflexivity|].
  split; [reflexivity|]. split; [|reflexivity].
  intro H. apply (f_equal (fun g => map p_score (players g))) in H.
  vm_compute in H. discriminate.
Qed.

(** ** C5: kicking a player *)

(** The KICKED notification follows the connection whose PeerJS id equals
    the player id in the action; when no connection carries that id, the
    kick sends nothing but the state broadcast. *)
Lemma kick_without_matching_peer (playerId sender senderPeerId : string)
      (now : Z) (h : Host) :
  find (fun c => String.eqb (peer c) playerId) (connections h) = None ->
  handlePeerMessage (host_action (KICK_PLAYER playerId) sender)
                    senderPeerId now h
  = updateAndBroadcast
      [F_players (filter (fun p => negb (String.eqb (p_id p) playerId))
                         (players (gameState h)))] h.
Proof.
  intro Hnone. unfold handlePeerMessage, host_action.
  cbn [msg_type payload handleHostAction].
  unfold sendToPeer. now rewrite Hnone.
Qed.

(** C5.  Bob joined over the connection [peer-bob] under the player id
    [p2].  Kicking [p2] removes Bob from the players list, but the KICKED
    notification is addressed to a connection whose peer id is [p2]; there
    is none, so the only messages that leave the host are the state
    broadcasts, and Bob's endpoint is never told. *)
Theorem kick_does_not_reach_the_player :
  let h' := handlePeerMessage (host_action (KICK_PLAYER "p2") "ctl")
                              "peer-ctl" 9000 lobby_host in
  map p_id (players (gameState lobby_host)) = ["p1"; "p2"]
  /\ map peer (connections lobby_host) = ["peer-ann"; "peer-bob"]
  /\ map p_id (players (gameState h')) = ["p1"]
  /\ skipn (List.length (sent lobby_host))
           (map (fun x => (fst x, msg_type (snd x))) (sent h'))
     = [("peer-ann", T_UPDATE_STATE); ("peer-bob", T_UPDATE_STATE)].
Proof.
  cbv zeta. repeat split; vm_compute; reflexivity.
Qed.

(** ** Case analysis over everything that can happen to the host *)

Ltac host_cases :=
  unfold handlePeerMessage, handleHostAction, handleCorrect, handleIncorrect,
    skipQuestion, finishReveal, startGame, selectQuestion, onDisconnect,
    first_render_gameState;
  cbv zeta; split_branches;
  cbn [gameState with_introPlayerIndex with_connections
       with_hostControllerPeerIdRef with_gameState];
  frame;
  cbn [gameState with_introPlayerIndex with_connections
       with_hostControllerPeerIdRef with_gameState];
  unfold merge;
  cbn [fold_left assign status activePlayerId activeQuestion players
       categories].

(** ** C7: answered questions stay answered *)

Lemma answered_kept_refl (cs : list Category) : answered_kept cs cs.
Proof.
  unfold answered_kept.
  induction cs as [|c cs IH]; constructor; [|exact IH].
  induction (questions c) as [|q qs IHq]; constructor; auto.
Qed.

Lemma answered_kept_questions_trans (a b c : list Question) :
  Forall2 (fun q q' => q_id q' = q_id q
                       /\ (q_isAnswered q = true -> q_isAnswered q' = true))
          a b ->
  Forall2 (fun q q' => q_id q' = q_id q
                       /\ (q_isAnswered q = true -> q_isAnswered q' = true))
          b c ->
  Forall2 (fun q q' => q_id q' = q_id q
                       /\ (q_isAnswered q = true -> q_isAnswered q' = true))
          a c.
Proof.
  intros Hab. revert c.
  induction Hab as [|x y a b [Hid Hxy] Hab IH]; intros c Hbc;
    inversion Hbc as [|? z ? c' [Hid' Hyz] Hbc']; subst; constructor.
  - split; [congruence | auto].
  - now apply IH.
Qed.

Lemma answered_kept_trans (a b c : list Category) :
  answered_kept a b -> answered_kept b c -> answered_kept a c.
Proof.
  unfold answered_kept. intros Hab. revert c.
  induction Hab as [|x y a b Hxy Hab IH]; intros c Hbc;
    inversion Hbc as [|? z ? c' Hyz Hbc']; subst; constructor.
  - eapply answered_kept_questions_trans; eassumption.
  - now apply IH.
Qed.

Lemma answered_kept_mark (aq : option Question) (cs : list Category) :
  answered_kept cs (mark_answered aq cs).
Proof.
  unfold answered_kept.
  induction cs as [|c cs IH]; simpl; constructor; [|exact IH].
  simpl.
  induction (questions c) as [|q qs IHq]; simpl; constructor; [|exact IHq].
  destruct (id_is (option_map q_id aq) (q_id q)); simpl; auto.
Qed.

Lemma fire_answered_kept (e : Event) (h : Host) :
  answered_kept (categories (gameState h)) (categories (gameState (fire e h))).
Proof.
  destruct e; cbn [fire]; host_cases;
    first [ apply answered_kept_refl | apply answered_kept_mark ].
Qed.

(** C7.  Whatever happens to the host, a peer message of any kind
    (CORRECT, INCORRECT, SKIP, SELECT_QUESTION, CONTINUE and the rest), a
    button of the host screen, a timer or a connection event, and however
    many of them in a row, the board keeps its categories and questions in
    place and no question that was answered becomes unanswered. *)
Theorem isAnswered_monotonic :
  forall (es : list Event) (h : Host),
    answered_kept (categories (gameState h))
                  (categories (gameState (run es h))).
Proof.
  unfold run. induction es as [|e es IH]; intro h; simpl.
  - apply answered_kept_refl.
  - eapply answered_kept_trans; [apply fire_answered_kept | apply IH].
Qed.

(** ** C3: the active player *)

Lemma reachable_run (es : list Event) :
  forall h, reachable h -> reachable (run es h).
Proof.
  unfold run. induction es as [|e es IH]; intros h Hr; simpl;
    [exact Hr | apply IH; now constructor].
Qed.








(** What (1) leaves out.  The question of [open_question_host] is up and
    the buzzer released.  A CONTINUE from the host's phone is handled, and
    before the host has rendered it Ann's BUZZ arrives: the handler still
    reads QUESTION_ACTIVE from [gameStateRef] and accepts it.  Once
    rendered, the host is back on the board with Ann as active player. *)
Lemma buzz_after_unrendered_continue :
  let L := live_run continue_then_buzz (settle open_question_host) in
  live_reachable L
  /\ gameStateRef L = gameState (react L)
  /\ status (gameState (react L)) = PLAYING
  /\ activeQuestion (gameState (react L)) = None
  /\ activePlayerId (gameState (react L)) = Some "p1".
Proof.
  intro L. split.
  - apply live_reachable_run, reachable_settled, reachable_run,
      reachable_run, reachable_init.
  - repeat split; vm_compute; reflexivity.
Qed.


(** ** C8: golden and red questions of the initial board *)

Section Shuffle.

Local Open Scope nat_scope.

Lemma set_index_length {A : Type} (i : nat) (v : A) (a : list A) :
  List.length (set_index i v a) = List.length a.
Proof.
  revert i. induction a as [|x a IH]; intros [|i]; simpl; auto.
Qed.

Lemma nth_set_index {A : Type} (i k : nat) (v d : A) (a : list A) :
  i < List.length a ->
  nth k (set_index i v a) d = if Nat.eqb k i then v else nth k a d.
Proof.
  revert i k. induction a as [|x a IH]; intros i k Hi; simpl in Hi; [lia|].
  destruct i as [|i], k as [|k]; simpl; auto.
  apply IH. lia.
Qed.

Lemma swap_length (i j : nat) (a : list nat) :
  List.length (swap i j a) = List.length a.
Proof. unfold swap. now rewrite !set_index_length. Qed.

Lemma nth_swap (i j k : nat) (a : list nat) :
  i < List.length a -> j < List.length a ->
  nth k (swap i j a) 0 = nth (swapped_from i j k) a 0.
Proof.
  intros Hi Hj. unfold swap, swapped_from.
  rewrite nth_set_index by (now rewrite set_index_length).
  destruct (Nat.eqb k j); [reflexivity|].
  rewrite nth_set_index by assumption.
  now destruct (Nat.eqb k i).
Qed.

Lemma swapped_from_lt (i j k n : nat) :
  i < n -> j < n -> k < n -> swapped_from i j k < n.
Proof.
  unfold swapped_from. intros.
  destruct (Nat.eqb k j); [assumption|]. now destruct (Nat.eqb k i).
Qed.

Lemma swapped_from_inj (i j k k' : nat) :
  swapped_from i j k = swapped_from i j k' -> k = k'.
Proof.
  unfold swapped_from.
  destruct (Nat.eqb_spec k j), (Nat.eqb_spec k i),
           (Nat.eqb_spec k' j), (Nat.eqb_spec k' i); lia.
Qed.

Lemma swap_arrangement (n i j : nat) (a : list nat) :
  i < n -> j < n -> is_arrangement n a -> is_arrangement n (swap i j a).
Proof.
  intros Hi Hj (Hlen & Hnd & Hlt). subst n.
  split; [apply swap_length|]. split.
  - apply (NoDup_nth _ 0). intros x y Hx Hy Heq.
    rewrite swap_length in Hx, Hy.
    rewrite !nth_swap in Heq by assumption.
    apply (proj1 (NoDup_nth a 0) Hnd) in Heq;
      try (now apply swapped_from_lt).
    now apply swapped_from_inj in Heq.
  - intros x Hin. apply (In_nth _ _ 0) in Hin.
    destruct Hin as (k & Hk & <-). rewrite swap_length in Hk.
    rewrite nth_swap by assumption.
    apply Hlt, nth_In. now apply swapped_from_lt.
Qed.

Lemma floor_random_lt (r b : nat) : b <> 0 -> floor_random r b < b.
Proof.
  intro Hb. unfold floor_random.
  destruct (Nat.eqb_spec b 0); [contradiction|].
  now apply Nat.mod_upper_bound.
Qed.

Lemma shuffle_arrangement (random : nat -> nat) (n : nat) :
  forall i k a,
    i < n -> is_arrangement n a -> is_arrangement n (shuffle random k i a).
Proof.
  induction i as [|i IH]; intros k a Hi Ha; simpl; [exact Ha|].
  apply IH; [lia|]. apply swap_arrangement; try assumption.
  match goal with
  | |- context [floor_random ?r ?b] =>
      pose proof (floor_random_lt r b ltac:(lia))
  end.
  lia.
Qed.

Lemma seq_arrangement (n : nat) : is_arrangement n (seq 0 n).
Proof.
  split; [apply length_seq|]. split; [apply seq_NoDup|].
  intros x Hx. apply in_seq in Hx. lia.
Qed.

End Shuffle.

Section Flags.

Local Open Scope nat_scope.

Variable random : nat -> nat.

Lemma includes_In (l : list nat) (x : nat) : includes l x = true <-> In x l.
Proof.
  unfold includes. rewrite existsb_exists. split.
  - intros (y & Hy & E). apply Nat.eqb_eq in E. now subst.
  - intros H. exists x. split; [assumption | apply Nat.eqb_refl].
Qed.

Lemma NoDup_firstn {A : Type} (k : nat) (l : list A) :
  NoDup l -> NoDup (firstn k l).
Proof.
  intro H. rewrite <- (firstn_skipn k l) in H.
  now apply NoDup_app_remove_r in H.
Qed.

Lemma In_firstn {A : Type} (k : nat) (l : list A) (x : A) :
  In x (firstn k l) -> In x l.
Proof.
  intro H. rewrite <- (firstn_skipn k l). apply in_or_app. now left.
Qed.

(** With at least three questions the shuffle leaves three distinct
    positions of the board at the head of the array. *)
Lemma goldenIndices_spec (cs : list Category) :
  3 <= List.length (allQuestions cs) ->
  let G := goldenIndices_of random cs in
  List.length G = 3 /\ NoDup G
  /\ forall x, In x G -> x < List.length (allQuestions cs).
Proof.
  intros Hn G. subst G. unfold goldenIndices_of.
  set (n := List.length (allQuestions cs)) in *.
  destruct (shuffle_arrangement random n (n - 1) 0 (seq 0 n)
              ltac:(lia) (seq_arrangement n)) as (Hlen & Hnd & Hlt).
  split; [rewrite length_firstn; lia|].
  split; [now apply NoDup_firstn|].
  intros x Hx. now apply Hlt, In_firstn with 3.
Qed.

(** Counting the positions below [n] that belong to a duplicate-free list
    of positions below [n] counts that list. *)
Lemma count_included (G : list nat) (n : nat) :
  NoDup G -> (forall x, In x G -> x < n) ->
  List.length (filter (includes G) (seq 0 n)) = List.length G.
Proof.
  intros Hnd Hlt. apply Permutation_length, NoDup_Permutation.
  - apply NoDup_filter, seq_NoDup.
  - exact Hnd.
  - intro x. rewrite filter_In, in_seq, includes_In. split.
    + now intros [_ H].
    + intro H. split; [|exact H]. specialize (Hlt x H). lia.
Qed.

Lemma count_position (z : Z) (n : nat) :
  forall c,
    List.length (filter (fun i => Z.eqb (Z.of_nat i) z) (seq c n))
    = if ((Z.of_nat c <=? z) && (z <? Z.of_nat (c + n)))%Z then 1 else 0.
Proof.
  induction n as [|n IH]; intro c.
  - cbn [seq filter List.length].
    destruct (Z.leb_spec (Z.of_nat c) z), (Z.ltb_spec z (Z.of_nat (c + 0)));
      cbn [andb]; try reflexivity; lia.
  - cbn [seq filter].
    destruct (Z.eqb_spec (Z.of_nat c) z) as [E|E];
      cbn [List.length]; rewrite IH;
      destruct (Z.leb_spec (Z.of_nat (S c)) z),
               (Z.leb_spec (Z.of_nat c) z),
               (Z.ltb_spec z (Z.of_nat (S c + n))),
               (Z.ltb_spec z (Z.of_nat (c + S n)));
      cbn [andb]; lia.
Qed.

(** *** The counter-threading maps, flattened *)

Lemma map_counting_imap (f : nat -> Question -> Question)
      (qs : list Question) :
  forall c, map_counting f c qs = (imap f c qs, c + List.length qs).
Proof.
  induction qs as [|q qs IH]; intro c; simpl.
  - now rewrite Nat.add_0_r.
  - rewrite IH. f_equal. lia.
Qed.

Lemma imap_app (f : nat -> Question -> Question) (l1 l2 : list Question) :
  forall c,
    imap f c (l1 ++ l2)%list
    = (imap f c l1 ++ imap f (c + List.length l1) l2)%list.
Proof.
  induction l1 as [|q l1 IH]; intro c; simpl.
  - now rewrite Nat.add_0_r.
  - rewrite IH. do 3 f_equal. lia.
Qed.

Lemma map_categories_counting_imap (f : nat -> Question -> Question)
      (cs : list Category) :
  forall c,
    allQuestions (fst (map_categories_counting f c cs))
    = imap f c (allQuestions cs)
    /\ snd (map_categories_counting f c cs)
       = c + List.length (allQuestions cs).
Proof.
  unfold allQuestions.
  induction cs as [|cat cs IH]; intro c; simpl.
  - now rewrite Nat.add_0_r.
  - rewrite map_counting_imap.
    destruct (map_categories_counting f (c + List.length (questions cat)) cs)
      as [t' c2] eqn:E.
    specialize (IH (c + List.length (questions cat))). rewrite E in IH.
    simpl in IH. destruct IH as [IH1 IH2]. simpl.
    rewrite imap_app, IH1, length_app. split; [reflexivity | lia].
Qed.

Lemma imap_length (f : nat -> Question -> Question) (l : list Question) :
  forall c, List.length (imap f c l) = List.length l.
Proof. induction l; intro c; simpl; auto. Qed.

Lemma imap_imap (f g : nat -> Question -> Question) (l : list Question) :
  forall c, imap g c (imap f c l) = imap (fun i q => g i (f i q)) c l.
Proof. induction l as [|q l IH]; intro c; simpl; [|rewrite IH]; auto. Qed.

Lemma count_imap (P : Question -> bool) (f : nat -> Question -> Question)
      (g : nat -> bool) (l : list Question) :
  (forall i q, In q l -> P (f i q) = g i) ->
  forall c,
    List.length (filter P (imap f c l))
    = List.length (filter g (seq c (List.length l))).
Proof.
  induction l as [|q l IH]; intros H c; simpl; [reflexivity|].
  rewrite (H c q) by now left.
  destruct (g c); simpl; rewrite IH; auto; intros; apply H; now right.
Qed.

Lemma Forall_imap (P : Question -> Prop) (f : nat -> Question -> Question)
      (l : list Question) :
  (forall i q, In q l -> P (f i q)) ->
  forall c, Forall P (imap f c l).
Proof.
  induction l as [|q l IH]; intros H c; simpl; constructor.
  - apply H. now left.
  - apply IH. intros. apply H. now right.
Qed.

(** *** The red loop *)

Lemma pick_red_cases (q : nat) (G : list nat) :
  forall remaining k,
    (pick_red random k remaining q G = (-1)%Z
     /\ forall a, a < remaining ->
                  includes G (floor_random (random (k + a)) q) = true)
    \/ exists a, a < remaining
                 /\ includes G (floor_random (random (k + a)) q) = false
                 /\ pick_red random k remaining q G
                    = Z.of_nat (floor_random (random (k + a)) q).
Proof.
  induction remaining as [|m IH]; intro k; simpl.
  - left. split; [reflexivity | intros; lia].
  - destruct (includes G (floor_random (random k) q)) eqn:E; simpl.
    + destruct (IH (S k)) as [[Hm Hall] | (a & Ha & Hinc & Hr)].
      * left. split; [exact Hm|]. intros [|a] Ha.
        -- now rewrite Nat.add_0_r.
        -- rewrite <- Nat.add_succ_comm. apply Hall. lia.
      * right. exists (S a). rewrite <- Nat.add_succ_comm.
        repeat split; try assumption. lia.
    + right. exists 0. rewrite Nat.add_0_r.
      repeat split; try assumption. lia.
Qed.

End Flags.

Section InitialBoard.

Local Open Scope nat_scope.

Variable random : nat -> nat.
Variable cs : list Category.

Lemma init_board_flat :
  allQuestions (init_board random cs)
  = imap (init_flag random cs) 0 (allQuestions cs).
Proof.
  unfold init_board, init_flag.
  rewrite (proj1 (map_categories_counting_imap _ _ 0)).
  rewrite (proj1 (map_categories_counting_imap _ _ 0)).
  now rewrite imap_imap.
Qed.

Lemma redIndex_pick :
  redIndex_of random cs
  = pick_red random (List.length (allQuestions cs) - 1) 100
             (List.length (allQuestions cs)) (goldenIndices_of random cs).
Proof.
  unfold redIndex_of.
  now rewrite (proj2 (map_categories_counting_imap _ _ 0)).
Qed.

Lemma flag_golden (i : nat) (q : Question) :
  is_golden q = false ->
  is_golden (init_flag random cs i q)
  = includes (goldenIndices_of random cs) i.
Proof.
  intro Hq. unfold init_flag.
  destruct (includes _ i), (Z.eqb (Z.of_nat i) _); simpl; auto.
Qed.

Lemma flag_red (i : nat) (q : Question) :
  is_red q = false ->
  is_red (init_flag random cs i q)
  = Z.eqb (Z.of_nat i) (redIndex_of random cs).
Proof.
  intro Hq. unfold init_flag.
  destruct (includes _ i), (Z.eqb (Z.of_nat i) _); simpl; auto.
Qed.

Lemma redIndex_cases :
  (redIndex_of random cs = (-1)%Z
   /\ forall a, a < 100 ->
                includes (goldenIndices_of random cs) (red_draw random cs a)
                = true)
  \/ exists a, a < 100
               /\ includes (goldenIndices_of random cs)
                           (red_draw random cs a) = false
               /\ redIndex_of random cs = Z.of_nat (red_draw random cs a).
Proof.
  rewrite redIndex_pick. unfold red_draw. apply pick_red_cases.
Qed.

Lemma count_golden_init :
  3 <= List.length (allQuestions cs) -> unflagged cs ->
  count_golden (init_board random cs) = 3.
Proof.
  intros Hn Hun. unfold count_golden. rewrite init_board_flat.
  rewrite (count_imap is_golden _ (includes (goldenIndices_of random cs))).
  - destruct (goldenIndices_spec random cs Hn) as (Hlen & Hnd & Hlt).
    now rewrite count_included.
  - intros i q Hin. apply flag_golden.
    now apply (proj1 (Forall_forall _ _) Hun q Hin).
Qed.

Lemma count_red_init :
  unflagged cs ->
  count_red (init_board random cs)
  = if ((0 <=? redIndex_of random cs)
        && (redIndex_of random cs
            <? Z.of_nat (List.length (allQuestions cs))))%Z
    then 1 else 0.
Proof.
  intros Hun. unfold count_red. rewrite init_board_flat.
  rewrite (count_imap is_red _
             (fun i => Z.eqb (Z.of_nat i) (redIndex_of random cs))).
  - now rewrite count_position.
  - intros i q Hin. apply flag_red.
    now apply (proj1 (Forall_forall _ _) Hun q Hin).
Qed.

End InitialBoard.

(** C8, as the code has it.  Take a board of at least three questions,
    none flagged yet, and any outcomes of the random choices.  The board
    that initialisation builds has exactly 3 questions flagged golden, at
    most 1 flagged red, and no question flagged both.  It has exactly 1 red
    question when one of the (at most 100) draws of the red loop misses the
    golden positions, and none when every draw hits one. *)
Theorem initial_board_flags :
  forall (random : nat -> nat) (cs : list Category),
    (3 <= List.length (allQuestions cs))%nat ->
    unflagged cs ->
    let b := init_board random cs in
    let missed a :=
      includes (goldenIndices_of random cs) (red_draw random cs a) = false in
    count_golden b = 3%nat
    /\ (count_red b <= 1)%nat
    /\ (count_red b = 1%nat <-> exists a, (a < 100)%nat /\ missed a)
    /\ ((forall a, (a < 100)%nat -> ~ missed a) -> count_red b = 0%nat)
    /\ Forall (fun q => ~ (is_golden q = true /\ is_red q = true))
              (allQuestions b).
Proof.
  intros random cs Hn Hun b missed. subst b missed. cbv beta.
  pose proof (count_red_init random cs Hun) as Hred.
  pose proof (redIndex_cases random cs) as Hcases.
  set (n := List.length (allQuestions cs)) in *.
  assert (Hdraw : forall a, (red_draw random cs a < n)%nat).
  { intro a. unfold red_draw. apply floor_random_lt. fold n. lia. }
  split; [now apply count_golden_init|].
  assert (Hcount :
            (count_red (init_board random cs) = 0%nat
             /\ forall a, (a < 100)%nat ->
                  includes (goldenIndices_of random cs)
                           (red_draw random cs a) = true)
            \/ (count_red (init_board random cs) = 1%nat
                /\ exists a, (a < 100)%nat
                     /\ includes (goldenIndices_of random cs)
                                 (red_draw random cs a) = false)).
  { destruct Hcases as [[HR Hall] | (a & Ha & Hinc & HR)].
    - left. split; [|exact Hall]. rewrite Hred, HR. reflexivity.
    - right. split; [|now exists a]. rewrite Hred, HR.
      specialize (Hdraw a).
      destruct (Z.leb_spec 0 (Z.of_nat (red_draw random cs a))),
               (Z.ltb_spec (Z.of_nat (red_draw random cs a)) (Z.of_nat n));
        cbn [andb]; lia. }
  split; [destruct Hcount as [[-> _] | [-> _]]; lia|].
  split.
  { split.
    - intro H1. destruct Hcount as [[H0 _] | [_ Hex]];
        [rewrite H0 in H1; discriminate | exact Hex].
    - intros (a & Ha & Hm). destruct Hcount as [[_ Hall] | [H1 _]];
        [rewrite (Hall a Ha) in Hm; discriminate | exact H1]. }
  split.
  { intros Hnone. destruct Hcount as [[H0 _] | [_ (a & Ha & Hm)]];
      [exact H0 | now destruct (Hnone a Ha)]. }
  rewrite init_board_flat. apply Forall_imap. intros i q Hin [Hg Hr].
  destruct (proj1 (Forall_forall _ _) Hun q Hin) as [Hqg Hqr].
  rewrite flag_golden in Hg by assumption.
  rewrite flag_red in Hr by assumption.
  apply Z.eqb_eq in Hr.
  destruct Hcases as [[HR _] | (a & _ & Hinc & HR)]; rewrite HR in Hr.
  - lia.
  - apply Nat2Z.inj in Hr. subst i. rewrite Hg in Hinc. discriminate.
Qed.

Lemma demo_board_unflagged : unflagged demo_board.
Proof. unfold unflagged. simpl. repeat constructor. Qed.

(** On the 5 x 5 board, with every outcome of [Math.random()] equal to 0,
    three questions are golden and one is red. *)
Lemma initial_board_flags_witness :
  (3 <= List.length (allQuestions demo_board))%nat
  /\ unflagged demo_board
  /\ count_golden (init_board (fun _ => O) demo_board) = 3%nat
  /\ (count_red (init_board (fun _ => O) demo_board) <= 1)%nat.
Proof.
  assert (Hn : (3 <= List.length (allQuestions demo_board))%nat)
    by (simpl; lia).
  split; [exact Hn|]. split; [exact demo_board_unflagged|].
  destruct (initial_board_flags (fun _ => O) demo_board Hn
              demo_board_unflagged) as (Hg & Hr & _).
  split; [exact Hg | exact Hr].
Defined.

(** C8 as stated fails.  On the 5 x 5 board the shuffle driven by
    [unlucky_random] makes position 1 golden, and each of the 100 draws of
    the red loop then lands on position 1: the loop gives up and no
    question is red. *)
Lemma unlucky_draws_leave_no_red :
  let b := init_board unlucky_random demo_board in
  unflagged demo_board
  /\ List.length (allQuestions demo_board) = 25%nat
  /\ count_golden b = 3%nat
  /\ count_red b = 0%nat
  /\ count_red b <> 1%nat.
Proof.
  cbv zeta. split; [exact demo_board_unflagged|].
  split; [reflexivity|]. split; [vm_compute; reflexivity|].
  split; [vm_compute; reflexivity|].
  vm_compute. discriminate.
Qed.

(** * Further properties of the host *)

(** ** What a broadcast sends *)

Lemma broadcast_fold_sent (g : GameState) (cs : list DataConnection) :
  forall h,
    sent
      (fold_left
         (fun acc conn =>
            if open conn then log_send (peer conn) (UPDATE_STATE_msg g) acc
            else acc) cs h)
    = (sent h ++ map (fun c => (peer c, UPDATE_STATE_msg g))
                     (filter open cs))%list.
Proof.
  induction cs as [|c cs IH]; intro h; simpl.
  - now rewrite app_nil_r.
  - rewrite IH. destruct (open c); simpl; [|reflexivity].
    now rewrite <- app_assoc.
Qed.

(** X1.  [broadcastState] hands the snapshot to every open connection, once
    each and in connection order, skips the closed ones, and leaves the
    messages sent before in place. *)
Theorem broadcastState_sends_to_open_connections :
  forall (g : GameState) (h : Host),
    sent (broadcastState g h)
    = (sent h ++ map (fun c => (peer c, UPDATE_STATE_msg g))
                     (filter open (connections h)))%list
    /\ gameState (broadcastState g h) = gameState h
    /\ connections (broadcastState g h) = connections h.
Proof.
  intros g h. split; [apply broadcast_fold_sent|].
  split; [apply broadcastState_gameState | apply broadcastState_connections].
Qed.

Lemma setGameState_connections g h :
  connections (setGameState g h) = connections h.
Proof. unfold setGameState. now rewrite broadcastState_connections. Qed.

Lemma setGameState_sent g h :
  sent (setGameState g h) = (sent h ++ snapshots (setGameState g h))%list.
Proof.
  unfold snapshots. rewrite setGameState_gameState, setGameState_connections.
  unfold setGameState, broadcastState. now rewrite broadcast_fold_sent.
Qed.

Lemma sendToPeer_sent i m h :
  sent (sendToPeer i m h) = sent h
  \/ sent (sendToPeer i m h) = (sent h ++ [(i, m)])%list.
Proof.
  unfold sendToPeer.
  destruct (find _ _) as [c|] eqn:E; [|now left].
  destruct (open c); [|now left]. right. simpl.
  apply find_some in E. destruct E as [_ E].
  apply String.eqb_eq in E. now rewrite E.
Qed.

(** ** The shape of everything the host sends *)

Lemma emits_refl h : emits h h.
Proof. exists [], []. rewrite !app_nil_r. auto. Qed.

Lemma emits_quiet h h' :
  sent h' = sent h -> emits h h'.
Proof. intro E. exists [], []. rewrite !app_nil_r. auto. Qed.

Lemma emits_setGameState g h0 h :
  sent h0 = sent h -> emits h (setGameState g h0).
Proof.
  intro E. exists [], (snapshots (setGameState g h0)).
  rewrite setGameState_sent, E. simpl. auto.
Qed.

Lemma emits_intro i x h : emits h x -> emits h (with_introPlayerIndex i x).
Proof. intros (d & s & E & Hd & Hs). exists d, s. auto. Qed.

Lemma emits_rejected i h : emits h (sendToPeer i REJECTED_msg h).
Proof.
  destruct (sendToPeer_sent i REJECTED_msg h) as [E|E].
  - now apply emits_quiet.
  - exists [(i, REJECTED_msg)], []. rewrite E, app_nil_r.
    split; [reflexivity|]. split; [right; exists i|]; auto.
Qed.

Lemma emits_kicked i g h :
  emits h (setGameState g (sendToPeer i KICKED_msg h)).
Proof.
  destruct (sendToPeer_sent i KICKED_msg h) as [E|E].
  - now apply emits_setGameState.
  - exists [(i, KICKED_msg)],
           (snapshots (setGameState g (sendToPeer i KICKED_msg h))).
    rewrite setGameState_sent, E, <- app_assoc.
    split; [reflexivity|]. split; [right; exists i|]; auto.
Qed.

Lemma fire_emits (e : Event) (h : Host) : emits h (fire e h).
Proof.
  destruct e; cbn [fire];
    unfold handlePeerMessage, handleHostAction, handleCorrect,
      handleIncorrect, skipQuestion, finishReveal, startGame, selectQuestion,
      onDisconnect, first_render_gameState, updateAndBroadcast;
    cbv zeta; split_branches;
    repeat apply emits_intro;
    first [ apply emits_refl
          | apply emits_rejected
          | apply emits_kicked
          | apply emits_setGameState; reflexivity
          | apply emits_quiet; reflexivity ].
Qed.

Lemma snapshots_from_host (h : Host) :
  Forall (fun x => senderId (snd x) = "HOST"
                   /\ msg_type (snd x) = T_UPDATE_STATE
                   /\ payload (snd x) = StatePayload (gameState h))
         (snapshots h).
Proof.
  unfold snapshots. apply Forall_forall. intros x Hx.
  apply in_map_iff in Hx. destruct Hx as (c & <- & _). simpl. auto.
Qed.

Lemma live_fire_sent (e : Event) (L : Live) :
  exists direct,
    sent (react (live_fire e L)) = (sent (react L) ++ direct)%list
    /\ (direct = []
        \/ exists to, direct = [(to, REJECTED_msg)]
                      \/ direct = [(to, KICKED_msg)]).
Proof.
  assert (Hq : forall h : Host,
             sent h = sent (react L) ->
             exists direct,
               sent h = (sent (react L) ++ direct)%list
               /\ (direct = []
                   \/ exists to, direct = [(to, REJECTED_msg)]
                                 \/ direct = [(to, KICKED_msg)])).
  { intros h E. exists []. rewrite app_nil_r. auto. }
  assert (Hs : forall (i : string) (m : SyncMessage),
             m = REJECTED_msg \/ m = KICKED_msg ->
             exists direct,
               sent (sendToPeer i m (react L))
               = (sent (react L) ++ direct)%list
               /\ (direct = []
                   \/ exists to, direct = [(to, REJECTED_msg)]
                                 \/ direct = [(to, KICKED_msg)])).
  { intros i m Hm. destruct (sendToPeer_sent i m (react L)) as [E|E].
    - now apply Hq.
    - exists [(i, m)]. split; [exact E|]. right. exists i.
      destruct Hm as [-> | ->]; auto. }
  destruct e; live_cases;
    cbn [react sent with_gameState with_connections with_introPlayerIndex
         with_hostControllerPeerIdRef];
    first [ apply Hq; reflexivity | apply Hs; auto ].
Qed.

(** X2.  The log of sent messages only grows, and in one shape.  Handling
    one event, of any kind, and rendering it appends at most one reply,
    REJECTED or KICKED, addressed to a single peer, and after it either
    nothing or the state the host is then in, once on every connection
    that is then open, in connection order; every message appended is
    signed HOST.  Between renders it is the same in two halves: handling
    an event appends at most the one reply, and the render appends the
    snapshots, of the state rendered, if some handler has produced a new
    state, and nothing otherwise. *)
Theorem host_messages :
  (forall (e : Event) (h : Host),
     exists direct snaps,
       sent (fire e h) = (sent h ++ direct ++ snaps)%list
       /\ (direct = []
           \/ exists to, direct = [(to, REJECTED_msg)]
                         \/ direct = [(to, KICKED_msg)])
       /\ (snaps = []
           \/ snaps = map (fun c =>
                             (peer c, UPDATE_STATE_msg (gameState (fire e h))))
                          (filter open (connections (fire e h))))
       /\ Forall (fun x => senderId (snd x) = "HOST") (direct ++ snaps))
  /\ (forall (e : Event) (L : Live),
        exists direct,
          sent (react (live_fire e L)) = (sent (react L) ++ direct)%list
          /\ (direct = []
              \/ exists to, direct = [(to, REJECTED_msg)]
                            \/ direct = [(to, KICKED_msg)]))
  /\ (forall L : Live,
        sent (react (commit L))
        = (sent (react L)
           ++ (if dirty L
               then map (fun c =>
                           (peer c, UPDATE_STATE_msg (gameState (react L))))
                        (filter open (connections (react L)))
               else []))%list).
Proof.
  split; [|split].
  - intros e h. destruct (fire_emits e h) as (d & s & E & Hd & Hs).
    exists d, s. split; [exact E|]. split; [exact Hd|].
    split; [exact Hs|].
    apply Forall_app. split.
    + destruct Hd as [->|(to & [->| ->])];
        [apply Forall_nil | |];
        (apply Forall_cons; [reflexivity | apply Forall_nil]).
    + destruct Hs as [->| ->]; [constructor|].
      eapply Forall_impl; [|apply snapshots_from_host].
      simpl. intros x (H1 & _). exact H1.
  - exact live_fire_sent.
  - intro L. unfold commit. cbn [react].
    destruct (dirty L); [|now rewrite app_nil_r].
    unfold broadcastState. apply broadcast_fold_sent.
Qed.

(** ** Invariants of the reachable states *)

Lemma ids_of_map (f : Player -> Player) (ps : list Player) :
  (forall p, p_id (f p) = p_id p) -> map p_id (map f ps) = map p_id ps.
Proof.
  intro H. rewrite map_map. apply map_ext. exact H.
Qed.

Lemma ids_award apid pts ps : map p_id (award apid pts ps) = map p_id ps.
Proof.
  unfold award. apply ids_of_map. intro p.
  now destruct (id_is apid (p_id p)).
Qed.

Lemma ids_deduct apid pts ps : map p_id (deduct apid pts ps) = map p_id ps.
Proof.
  unfold deduct. apply ids_of_map. intro p.
  now destruct (id_is apid (p_id p)).
Qed.

Lemma find_id_none (ps : list Player) (i : string) :
  find (fun p => String.eqb (p_id p) i) ps = None <-> ~ In i (map p_id ps).
Proof.
  induction ps as [|a ps IH]; simpl; [tauto|].
  destruct (String.eqb_spec (p_id a) i) as [E|E].
  - split; [discriminate | intro H; exfalso; auto].
  - rewrite IH. tauto.
Qed.

Lemma NoDup_ids_snoc (ps : list Player) (np : Player) :
  NoDup (map p_id ps) ->
  find (fun p => String.eqb (p_id p) (p_id np)) ps = None ->
  NoDup (map p_id (ps ++ [np])).
Proof.
  intros Hnd Hf. apply find_id_none in Hf.
  rewrite map_app. simpl.
  apply NoDup_app; [exact Hnd | repeat constructor; auto |].
  intros x Hx [<-|[]]. contradiction.
Qed.

Lemma NoDup_ids_filter (f : Player -> bool) (ps : list Player) :
  NoDup (map p_id ps) -> NoDup (map p_id (filter f ps)).
Proof.
  induction ps as [|a ps IH]; simpl; intro Hnd; [constructor|].
  inversion Hnd as [|? ? Hnotin Hnd']; subst.
  destruct (f a); simpl; [|now apply IH].
  constructor; [|now apply IH].
  intro Hin. apply Hnotin. apply in_map_iff in Hin.
  destruct Hin as (p & Hp & Hpf). apply filter_In in Hpf.
  apply in_map_iff. exists p. tauto.
Qed.

Ltac ids_unchanged :=
  first
    [ assumption
    | rewrite ids_award; assumption
    | rewrite ids_deduct; assumption
    | rewrite ids_of_map;
      [ assumption
      | let p := fresh "p" in
        intro p;
        match goal with
        | |- context [if ?b then _ else _] => destruct b; reflexivity
        end ] ].

Lemma fire_unique_ids (e : Event) (h : Host) :
  NoDup (map p_id (players (gameState h))) ->
  NoDup (map p_id (players (gameState (fire e h)))).
Proof.
  intro Hnd.
  destruct e; cbn [fire]; host_cases;
    first [ ids_unchanged
          | now apply NoDup_ids_snoc
          | now apply NoDup_ids_filter ].
Qed.

(** X3.  In every state the host can reach, no two players of the list have
    the same id. *)
Theorem player_ids_unique :
  forall (h : Host),
    reachable h -> NoDup (map p_id (players (gameState h))).
Proof.
  intros h Hr. induction Hr as [room theme0 random cs | h e Hr IH].
  - constructor.
  - now apply fire_unique_ids.
Qed.

Lemma player_ids_unique_witness :
  reachable buzzed_host
  /\ NoDup (map p_id (players (gameState buzzed_host))).
Proof.
  assert (Hr : reachable buzzed_host)
    by apply reachable_run, reachable_run, reachable_init.
  split; [exact Hr | exact (player_ids_unique buzzed_host Hr)].
Defined.

Lemma find_In_questions (f : Question -> bool) (qs : list Question)
      (q : Question) :
  find f qs = Some q -> In q qs.
Proof. intro H. now apply find_some in H. Qed.

Lemma find_question_fold (i : string) (cs : list Category) :
  forall acc q,
    fold_left
      (fun targetQ cat =>
         match find (fun q => String.eqb (q_id q) i) (questions cat) with
         | Some q => Some q
         | None => targetQ
         end) cs acc = Some q ->
    acc = Some q \/ (In q (allQuestions cs) /\ q_id q = i).
Proof.
  unfold allQuestions.
  induction cs as [|cat cs IH]; simpl; intros acc q H; [now left|].
  apply IH in H. destruct H as [H|[H1 H2]].
  - destruct (find _ (questions cat)) as [q'|] eqn:E; [|now left].
    injection H as <-. right. apply find_some in E. destruct E as [E1 E2].
    apply String.eqb_eq in E2. split; [apply in_or_app; now left | exact E2].
  - right. split; [apply in_or_app; now right | exact H2].
Qed.

Lemma find_question_In (i : string) (cs : list Category) (q : Question) :
  find_question i cs = Some q -> In q (allQuestions cs) /\ q_id q = i.
Proof.
  intro H. apply find_question_fold in H. destruct H as [H|H];
    [discriminate | exact H].
Qed.

Lemma nth_error_In_board (cs : list Category) (c k : nat) (cat : Category)
      (q : Question) :
  nth_error cs c = Some cat -> nth_error (questions cat) k = Some q ->
  In q (allQuestions cs).
Proof.
  intros Hc Hq. unfold allQuestions. apply in_flat_map.
  exists cat. split; eapply nth_error_In; eassumption.
Qed.

Lemma same_question_mark (aq0 : option Question) (cs : list Category)
      (aq : Question) :
  (exists q, In q (allQuestions cs) /\ same_question q aq) ->
  exists q, In q (allQuestions (mark_answered aq0 cs)) /\ same_question q aq.
Proof.
  unfold allQuestions, mark_answered.
  intros (q & Hin & Hs). apply in_flat_map in Hin.
  destruct Hin as (cat & Hcat & Hq).
  exists (if id_is (option_map q_id aq0) (q_id q)
          then with_isAnswered true q else q).
  split.
  - apply in_flat_map. eexists. split.
    + apply in_map. exact Hcat.
    + simpl. apply in_map_iff. exists q. auto.
  - destruct (id_is _ _); [|exact Hs].
    unfold same_question in *. rewrite <- Hs. reflexivity.
Qed.

Lemma same_question_refl (q : Question) : same_question q q.
Proof. reflexivity. Qed.

Ltac wf_iff Hiff :=
  split;
  [ let Hq := fresh "Hq" in
    intro Hq;
    first [ left; reflexivity
          | right; reflexivity
          | apply Hiff; exact Hq
          | congruence
          | apply Hiff in Hq; destruct Hq; congruence ]
  | let Hs := fresh "Hs" in
    intros [Hs|Hs];
    first [ discriminate Hs
          | congruence
          | apply Hiff; auto ] ].

Ltac wf_board Hboard :=
  let aq := fresh "aq" in
  let Haq := fresh "Haq" in
  intros aq Haq;
  first
    [ discriminate Haq
    | apply same_question_mark; apply Hboard; congruence
    | apply Hboard; congruence
    | injection Haq as <-;
      eexists; split; [|apply same_question_refl];
      first [ eapply find_question_In; eassumption
            | eapply nth_error_In_board; eassumption ] ].

Lemma fire_active_question_wf (e : Event) (h : Host) :
  active_question_wf (gameState h) ->
  active_question_wf (gameState (fire e h)).
Proof.
  unfold active_question_wf. intros [Hiff Hboard].
  destruct e; cbn [fire]; host_cases; guard_facts;
    repeat match goal with
           | H : activeQuestion (gameState ?x) = _
             |- context [activeQuestion (gameState ?x)] => rewrite H
           end;
    (split; [wf_iff Hiff | wf_board Hboard]).
Qed.

Lemma reachable_active_question_wf (h : Host) :
  reachable h -> active_question_wf (gameState h).
Proof.
  intro Hr. induction Hr as [room theme0 random cs | h e Hr IH].
  - split; [split; [intro H; now destruct H | intros [H|H]; discriminate]
           | intros aq H; discriminate].
  - now apply fire_active_question_wf.
Qed.



(** X5.  In every state the host can reach, the question that is up is one of
    the questions of the board: same id, value, texts, category and flags;
    only [isAnswered] may differ, the board's copy being the one that gets
    marked. *)
Theorem active_question_on_board :
  forall (h : Host) (aq : Question),
    reachable h ->
    activeQuestion (gameState h) = Some aq ->
    exists q, In q (allQuestions (categories (gameState h)))
              /\ same_question q aq.
Proof.
  intros h aq Hr. exact (proj2 (reachable_active_question_wf h Hr) aq).
Qed.

Lemma active_question_on_board_witness :
  reachable buzzed_host
  /\ exists aq, activeQuestion (gameState buzzed_host) = Some aq
                /\ exists q,
                     In q (allQuestions (categories (gameState buzzed_host)))
                     /\ same_question q aq.
Proof.
  assert (Hr : reachable buzzed_host)
    by apply reachable_run, reachable_run, reachable_init.
  split; [exact Hr|].
  destruct (activeQuestion (gameState buzzed_host)) as [aq|] eqn:E.
  - exists aq. split; [reflexivity|].
    exact (active_question_on_board buzzed_host aq Hr E).
  - vm_compute in E. discriminate.
Defined.





Lemma fire_finished_all_answered (e : Event) (h : Host) :
  (status (gameState h) = FINISHED ->
   allAnswered (categories (gameState h)) = true) ->
  status (gameState (fire e h)) = FINISHED ->
  allAnswered (categories (gameState (fire e h))) = true.
Proof.
  intros Inv.
  destruct e; cbn [fire]; host_cases; guard_facts;
    intro Hs; first [ discriminate Hs | assumption | now apply Inv
                    | congruence ].
Qed.

(** X7.  In every state the host can reach, the phase is FINISHED only if every
    question of every category is answered. *)
Theorem finished_means_all_answered :
  forall (h : Host),
    reachable h ->
    status (gameState h) = FINISHED ->
    allAnswered (categories (gameState h)) = true.
Proof.
  intros h Hr. induction Hr as [room theme0 random cs | h e Hr IH].
  - intro H. discriminate.
  - now apply fire_finished_all_answered.
Qed.

Lemma finished_means_all_answered_witness :
  reachable finished_host
  /\ status (gameState finished_host) = FINISHED
  /\ allAnswered (categories (gameState finished_host)) = true.
Proof.
  assert (Hr : reachable finished_host) by apply reachable_run, reachable_init.
  assert (Hs : status (gameState finished_host) = FINISHED)
    by (vm_compute; reflexivity).
  split; [exact Hr|]. split; [exact Hs|].
  exact (finished_means_all_answered finished_host Hr Hs).
Defined.

(** ** Who is on the players list *)




(** ** Joining *)

(** X9.  A PLAYER_JOIN under a name other than the controller sentinel: if the
    id is already on the list the message changes nothing and nothing is
    sent (so a player who re-sends the join keeps score and lock); if it is
    new, the payload is appended to the list as it came, and only the
    players list changes. *)
Theorem join_is_idempotent :
  forall (h : Host) (newPlayer : Player) (sender senderPeerId : string)
         (now : Z),
    p_name newPlayer <> "HOST_CONTROLLER" ->
    let h' := handlePeerMessage
                (mkMsg T_PLAYER_JOIN (PlayerPayload newPlayer) sender)
                senderPeerId now h in
    (In (p_id newPlayer) (map p_id (players (gameState h))) -> h' = h)
    /\ (~ In (p_id newPlayer) (map p_id (players (gameState h))) ->
        gameState h'
        = merge (gameState h)
                [F_players (players (gameState h) ++ [newPlayer])]
        /\ hostControllerPeerIdRef h' = hostControllerPeerIdRef h).
Proof.
  intros h np sender peerId now Hname h'. subst h'.
  unfold handlePeerMessage; cbn [msg_type payload].
  apply String.eqb_neq in Hname. rewrite Hname.
  split; intro Hin.
  - destruct (find _ _) eqn:E; [reflexivity|].
    apply find_id_none in E. contradiction.
  - apply find_id_none in Hin. rewrite Hin. frame. auto.
Qed.

(** Bob's device sends its join a second time: the lobby is unchanged. *)
Lemma join_is_idempotent_witness :
  "Bob" <> "HOST_CONTROLLER"
  /\ In "p2" (map p_id (players (gameState lobby_host)))
  /\ handlePeerMessage (join "p2" "Bob") "peer-bob" 300 lobby_host
     = lobby_host.
Proof.
  assert (Hn : "Bob" <> "HOST_CONTROLLER") by discriminate.
  assert (Hin : In "p2" (map p_id (players (gameState lobby_host))))
    by (vm_compute; auto).
  split; [exact Hn|]. split; [exact Hin|].
  exact (proj1 (join_is_idempotent lobby_host
                  (mkPlayer "p2" "Bob" 0 false None None) "p2" "peer-bob"
                  300 Hn) Hin).
Defined.

(** ** Buzzing *)



(** X11.  The device and the host decide alike.  When the player's replica is
    the host's state and both read the same clock, the device sends BUZZ
    exactly when the host will accept it, making the player active; in
    every other case (it sends BUZZ_LOCKED_ATTEMPT, or nothing) a BUZZ
    would have been dropped by the host without a change. *)
Theorem device_and_host_agree_on_buzz :
  forall (h : Host) (localPlayerId senderPeerId : string) (now : Z),
    let h' := handlePeerMessage (sendAction T_BUZZ NoPayload localPlayerId)
                                senderPeerId now h in
    match handleBuzz (Some (gameState h)) localPlayerId now with
    | Some T_BUZZ =>
        gameState h'
        = merge (gameState h) [F_activePlayerId (Some localPlayerId)]
    | _ => h' = h
    end.
Proof.
  intros h pid peerId now h'. subst h'.
  unfold handleBuzz, handlePeerMessage, sendAction;
    cbn [msg_type senderId].
  destruct (status_eqb (status (gameState h)) QUESTION_ACTIVE);
    destruct (truthy_string (activePlayerId (gameState h)));
    cbn [negb orb andb]; try reflexivity.
  destruct (global_lock_active (gameState h) now);
    destruct (individual_lock_active _ now);
    cbn [orb]; try reflexivity.
  now frame.
Qed.

(** ** Selecting a question *)

Lemma find_question_by_id (qs : list Question) (q : Question) :
  NoDup (map q_id qs) -> In q qs ->
  find (fun x => String.eqb (q_id x) (q_id q)) qs = Some q.
Proof.
  induction qs as [|a qs IH]; simpl; intros Hnd Hin; [contradiction|].
  inversion Hnd as [|? ? Hnotin Hnd']; subst.
  destruct Hin as [->|Hin].
  - now rewrite String.eqb_refl.
  - destruct (String.eqb_spec (q_id a) (q_id q)) as [E|E].
    + exfalso. apply Hnotin. rewrite E. now apply in_map.
    + now apply IH.
Qed.

Lemma find_question_absent (i : string) (qs : list Question) :
  (forall q, In q qs -> q_id q <> i) ->
  find (fun x => String.eqb (q_id x) i) qs = None.
Proof.
  intro H. destruct (find _ qs) as [q|] eqn:E; [|reflexivity].
  apply find_some in E. destruct E as [Hin E].
  apply String.eqb_eq in E. now destruct (H q Hin).
Qed.

Lemma find_question_fold_absent (i : string) (cs : list Category) :
  (forall q, In q (allQuestions cs) -> q_id q <> i) ->
  forall acc,
    fold_left
      (fun targetQ cat =>
         match find (fun q => String.eqb (q_id q) i) (questions cat) with
         | Some q => Some q
         | None => targetQ
         end) cs acc = acc.
Proof.
  unfold allQuestions.
  induction cs as [|cat cs IH]; simpl; intros H acc; [reflexivity|].
  rewrite find_question_absent
    by (intros q Hq; apply H, in_or_app; now left).
  apply IH. intros q Hq. apply H, in_or_app. now right.
Qed.

Lemma NoDup_app_disjoint {A : Type} (l1 l2 : list A) (a : A) :
  NoDup (l1 ++ l2) -> In a l1 -> In a l2 -> False.
Proof.
  induction l1 as [|x l1 IH]; simpl; intros Hnd H1 H2; [contradiction|].
  inversion Hnd as [|? ? Hnotin Hnd']; subst.
  destruct H1 as [->|H1]; [|now apply IH].
  apply Hnotin, in_or_app. now right.
Qed.

Lemma find_question_fold_unique (cs : list Category) (q : Question) :
  NoDup (map q_id (allQuestions cs)) -> In q (allQuestions cs) ->
  forall acc,
    fold_left
      (fun targetQ cat =>
         match find (fun x => String.eqb (q_id x) (q_id q)) (questions cat)
         with
         | Some x => Some x
         | None => targetQ
         end) cs acc = Some q.
Proof.
  unfold allQuestions.
  induction cs as [|cat cs IH]; simpl; intros Hnd Hin acc; [contradiction|].
  rewrite map_app in Hnd.
  pose proof (NoDup_app_remove_l _ _ Hnd) as Hnd2.
  pose proof (NoDup_app_remove_r _ _ Hnd) as Hnd1.
  apply in_app_or in Hin. destruct Hin as [Hin|Hin].
  - rewrite (find_question_by_id _ _ Hnd1 Hin).
    apply (find_question_fold_absent (q_id q) cs).
    intros x Hx E.
    apply (NoDup_app_disjoint _ _ (q_id q) Hnd).
    + now apply in_map.
    + rewrite <- E. now apply in_map.
  - now apply IH.
Qed.

(** X12.  A SELECT_QUESTION from a peer is dropped, with no change and nothing
    sent, when the phase is not PLAYING, when no question of the board has
    the id, or when the question with that id is already answered.  With
    question ids distinct across the board, an unanswered question picked
    in phase PLAYING becomes the active question: phase QUESTION_ACTIVE,
    countdown 30, buzzer locked until an hour after [now]; nothing else
    changes. *)
Theorem select_question_guards :
  forall (h : Host) (questionId sender senderPeerId : string) (now : Z),
    let g := gameState h in
    let h' := handlePeerMessage
                (host_action (SELECT_QUESTION questionId) sender)
                senderPeerId now h in
    (status g <> PLAYING -> h' = h)
    /\ ((forall q, In q (allQuestions (categories g)) ->
                   q_id q <> questionId) -> h' = h)
    /\ (NoDup (map q_id (allQuestions (categories g))) ->
        forall q, In q (allQuestions (categories g)) ->
                  q_id q = questionId ->
                  (q_isAnswered q = true -> h' = h)
                  /\ (q_isAnswered q = false -> status g = PLAYING ->
                      gameState h'
                      = merge g [F_status QUESTION_ACTIVE;
                                 F_activeQuestion (Some q); F_timer 30;
                                 F_buzzerLockUntil
                                   (Some (now + 3600000))])).
Proof.
  intros h qid sender peerId now g h'. subst g h'.
  unfold handlePeerMessage, host_action;
    cbn [msg_type payload handleHostAction].
  split; [|split].
  - intro Hst. destruct (find_question _ _); [|reflexivity].
    destruct (status_eqb (status (gameState h)) PLAYING) eqn:E.
    + apply status_eqb_eq in E. contradiction.
    + now rewrite andb_false_r.
  - intro Habs. unfold find_question.
    now rewrite find_question_fold_absent.
  - intros Hnd q Hin <-. unfold find_question.
    rewrite (find_question_fold_unique _ _ Hnd Hin). split.
    + intros ->. reflexivity.
    + intros -> Hst. rewrite Hst. cbn [negb status_eqb andb].
      unfold selectQuestion. rewrite Hst. cbn [negb status_eqb].
      now frame.
Qed.

(** On the board of the lobby, once the introductions are over: an id the
    board does not have is ignored. *)
Lemma select_question_guards_witness :
  let h := run (firstn 4 buzz_events) lobby_host in
  (forall q, In q (allQuestions (categories (gameState h))) ->
             q_id q <> "q-9-9")
  /\ handlePeerMessage (host_action (SELECT_QUESTION "q-9-9") "ctl")
                       "peer-ctl" 1000 h = h.
Proof.
  intro h.
  assert (Habs : forall q, In q (allQuestions (categories (gameState h))) ->
                           q_id q <> "q-9-9").
  { intros q Hin. vm_compute in Hin.
    repeat (destruct Hin as [<-|Hin]; [discriminate|]). contradiction. }
  split; [exact Habs|].
  exact (proj1 (proj2 (select_question_guards h "q-9-9" "ctl" "peer-ctl"
                         1000)) Habs).
Defined.



(** ** Actions that name a player *)

Lemma merge_same_players (g : GameState) :
  merge g [F_players (players g)] = g.
Proof. now destruct g. Qed.

Lemma map_untouched (f : Player -> Player) (t : string) (ps : list Player) :
  ~ In t (map p_id ps) ->
  map (fun p => if String.eqb (p_id p) t then f p else p) ps = ps.
Proof.
  induction ps as [|a ps IH]; simpl; intro H; [reflexivity|].
  destruct (String.eqb_spec (p_id a) t) as [E|E]; [exfalso; auto|].
  rewrite IH; auto.
Qed.

Lemma filter_untouched (t : string) (ps : list Player) :
  ~ In t (map p_id ps) ->
  filter (fun p => negb (String.eqb (p_id p) t)) ps = ps.
Proof.
  induction ps as [|a ps IH]; simpl; intro H; [reflexivity|].
  destruct (String.eqb_spec (p_id a) t) as [E|E]; [exfalso; auto|].
  simpl. rewrite IH; auto.
Qed.

(** X14.  RENAME_PLAYER, OVERRIDE_SCORE and KICK_PLAYER naming an id that is
    not on the players list, and a BUZZ_LOCKED_ATTEMPT from such a sender,
    leave the game state as it is.  They are not dropped silently, though:
    the first two and the locked attempt still send the unchanged snapshot
    to every open connection. *)
Theorem unknown_player_actions :
  forall (h : Host) (target sender senderPeerId newName : string)
         (newScore now : Z) (pl : Payload),
    ~ In target (map p_id (players (gameState h))) ->
    let rename := handlePeerMessage
                    (host_action (RENAME_PLAYER target newName) sender)
                    senderPeerId now h in
    let override := handlePeerMessage
                      (host_action (OVERRIDE_SCORE target newScore) sender)
                      senderPeerId now h in
    let kick := handlePeerMessage (host_action (KICK_PLAYER target) sender)
                                  senderPeerId now h in
    let attempt := handlePeerMessage (mkMsg T_BUZZ_LOCKED_ATTEMPT pl target)
                                     senderPeerId now h in
    gameState rename = gameState h
    /\ gameState override = gameState h
    /\ gameState kick = gameState h
    /\ gameState attempt = gameState h
    /\ sent rename = (sent h ++ snapshots h)%list
    /\ sent override = (sent h ++ snapshots h)%list
    /\ sent attempt = (sent h ++ snapshots h)%list.
Proof.
  intros h target sender peerId newName newScore now pl Hnot.
  unfold handlePeerMessage, host_action;
    cbn [msg_type payload senderId handleHostAction]. cbv zeta.
  rewrite !map_untouched, filter_untouched by assumption.
  unfold updateAndBroadcast. rewrite !setGameState_gameState.
  rewrite sendToPeer_gameState, !merge_same_players.
  repeat split.
  all: unfold setGameState, broadcastState, snapshots;
    rewrite broadcast_fold_sent; reflexivity.
Qed.

(** Nobody called [p9] is in the lobby: renaming [p9] changes no state
    and sends two snapshots. *)
Lemma unknown_player_actions_witness :
  let h' := handlePeerMessage (host_action (RENAME_PLAYER "p9" "Zed") "ctl")
                              "peer-ctl" 500 lobby_host in
  ~ In "p9" (map p_id (players (gameState lobby_host)))
  /\ gameState h' = gameState lobby_host
  /\ List.length (sent h') = (List.length (sent lobby_host) + 2)%nat.
Proof.
  intro h'.
  assert (Hnot : ~ In "p9" (map p_id (players (gameState lobby_host)))).
  { vm_compute. intros [H|[H|[]]]; discriminate. }
  destruct (unknown_player_actions lobby_host "p9" "ctl" "peer-ctl" "Zed"
              0 500 NoPayload Hnot) as (E1 & _ & _ & _ & E5 & _).
  split; [exact Hnot|]. split; [exact E1|].
  unfold h'. rewrite E5, length_app. reflexivity.
Defined.

(** ** A wrong answer *)



(** ** Connections closing *)

(** X16.  When the [n]-th connection closes or fails, it is taken off the
    connection list.  If it was the controller's, the slot is freed and
    [isHostControllerConnected] becomes false; otherwise slot and game
    state are untouched.  In neither case does the players list change. *)
Theorem connection_closed :
  forall (h : Host) (n : nat) (conn : DataConnection),
    nth_error (connections h) n = Some conn ->
    let h' := fire (ConnectionClosed n) h in
    connections h' = remove_nth n (connections h)
    /\ players (gameState h') = players (gameState h)
    /\ (hostControllerPeerIdRef h = Some (peer conn) ->
        hostControllerPeerIdRef h' = None
        /\ isHostControllerConnected (gameState h') = Some false)
    /\ (hostControllerPeerIdRef h <> Some (peer conn) ->
        hostControllerPeerIdRef h' = hostControllerPeerIdRef h
        /\ gameState h' = gameState h /\ sent h' = sent h).
Proof.
  intros h n conn Hn h'. subst h'. cbn [fire]. rewrite Hn.
  unfold onDisconnect. cbn [hostControllerPeerIdRef with_connections].
  destruct (id_is (hostControllerPeerIdRef h) (peer conn)) eqn:E.
  - unfold updateAndBroadcast, setGameState.
    rewrite broadcastState_connections, broadcastState_gameState,
      broadcastState_ref.
    unfold merge; simpl.
    split; [reflexivity|]. split; [reflexivity|].
    split; [intros _; split; reflexivity|].
    intro Hne. exfalso. apply Hne. unfold id_is in E.
    destruct (hostControllerPeerIdRef h) as [r|]; [|discriminate].
    apply String.eqb_eq in E. now subst.
  - simpl.
    split; [reflexivity|]. split; [reflexivity|].
    split; [|intros _; repeat split; reflexivity].
    intro Heq. rewrite Heq in E. simpl in E.
    now rewrite String.eqb_refl in E.
Qed.

(** The controller of [controlled_host] hangs up. *)
Lemma connection_closed_witness :
  let h' := fire (ConnectionClosed 1) controlled_host in
  nth_error (connections controlled_host) 1 = Some (mkConn "peer-ctl" true)
  /\ hostControllerPeerIdRef h' = None
  /\ isHostControllerConnected (gameState h') = Some false
  /\ players (gameState h') = players (gameState controlled_host).
Proof.
  intro h'.
  destruct (connection_closed controlled_host 1 (mkConn "peer-ctl" true)
              eq_refl) as (_ & Hp & Hctl & _).
  destruct (Hctl eq_refl) as [Hr Hf].
  split; [reflexivity|]. split; [exact Hr|]. split; [exact Hf | exact Hp].
Defined.

(** ** The introduction sequence *)

(** X17.  From the lobby with at least one player, pressing START GAME, then
    one introduction step per player, then the closing step, brings the
    host to PLAYING with the introduction cursor back at -1 and the players
    as they were.  The closing step is not available earlier: while a
    player is still to be introduced it changes nothing. *)
Theorem introductions_lead_to_playing :
  forall (h : Host),
    status (gameState h) = LOBBY ->
    players (gameState h) <> [] ->
    let n := List.length (players (gameState h)) in
    let h' := run (ClickStartGame :: repeat IntroNextPlayer n
                   ++ [IntroFinished])%list h in
    status (gameState h') = PLAYING
    /\ introPlayerIndex h' = -1
    /\ players (gameState h') = players (gameState h)
    /\ (forall k, (k < n)%nat ->
                  let mid := run (ClickStartGame :: repeat IntroNextPlayer k)
                                 h in
                  fire IntroFinished mid = mid).
Proof.
  intros h Hst Hps n h'.
  assert (Hlen : n <> O).
  { subst n. destruct (players (gameState h)); [congruence | discriminate]. }
  set (h0 := fire ClickStartGame h).
  assert (E0 : h0 = with_introPlayerIndex 0
                      (updateAndBroadcast [F_status INTRO] h)).
  { subst h0. cbn [fire]. rewrite Hst. cbn [status_eqb andb].
    apply Nat.eqb_neq in Hlen. fold n. rewrite Hlen. reflexivity. }
  assert (Hs0 : status (gameState h0) = INTRO).
  { rewrite E0. cbn [gameState with_introPlayerIndex]. now frame. }
  assert (Hp0 : players (gameState h0) = players (gameState h)).
  { rewrite E0. cbn [gameState with_introPlayerIndex]. now frame. }
  assert (Hi0 : introPlayerIndex h0 = 0) by now rewrite E0.
  assert (Hmid : forall k, (k <= n)%nat ->
                   run (ClickStartGame :: repeat IntroNextPlayer k) h
                   = with_introPlayerIndex (Z.of_nat k) h0).
  { intros k Hk. unfold run. cbn [fold_left]. fold h0.
    clear E0. revert Hk. induction k as [|k IH]; intro Hk.
    - simpl. rewrite <- Hi0. now destruct h0.
    - replace (S k) with (k + 1)%nat by lia.
      rewrite repeat_app, fold_left_app. rewrite IH by lia. simpl.
      rewrite Hs0, Hp0. fold n. cbn [status_eqb andb].
      replace (0 <=? Z.of_nat k) with true by (symmetry; apply Z.leb_le; lia).
      replace (Z.of_nat k <? Z.of_nat n) with true
        by (symmetry; apply Z.ltb_lt; lia).
      cbn [andb]. unfold with_introPlayerIndex; simpl. f_equal. lia. }
  assert (Eh' : h' = fire IntroFinished
                       (with_introPlayerIndex (Z.of_nat n) h0)).
  { subst h'. unfold run. rewrite app_comm_cons, fold_left_app.
    fold (run (ClickStartGame :: repeat IntroNextPlayer n) h).
    now rewrite Hmid by lia. }
  split; [|split; [|split]].
  - rewrite Eh'. cbn [fire gameState with_introPlayerIndex introPlayerIndex].
    rewrite Hs0, Hp0. fold n. cbn [status_eqb andb].
    replace (0 <=? Z.of_nat n) with true by (symmetry; apply Z.leb_le; lia).
    rewrite Z.ltb_irrefl. cbn [andb negb gameState with_introPlayerIndex].
    now frame.
  - rewrite Eh'. cbn [fire gameState with_introPlayerIndex introPlayerIndex].
    rewrite Hs0, Hp0. fold n. cbn [status_eqb andb].
    replace (0 <=? Z.of_nat n) with true by (symmetry; apply Z.leb_le; lia).
    rewrite Z.ltb_irrefl. reflexivity.
  - rewrite Eh'. cbn [fire gameState with_introPlayerIndex introPlayerIndex].
    rewrite Hs0, Hp0. fold n. cbn [status_eqb andb].
    replace (0 <=? Z.of_nat n) with true by (symmetry; apply Z.leb_le; lia).
    rewrite Z.ltb_irrefl. cbn [andb negb gameState with_introPlayerIndex].
    frame. unfold merge; simpl. exact Hp0.
  - intros k Hk mid. subst mid. rewrite Hmid by lia.
    cbn [fire gameState with_introPlayerIndex introPlayerIndex].
    rewrite Hs0, Hp0. fold n. cbn [status_eqb andb].
    replace (Z.of_nat k <? Z.of_nat n) with true
      by (symmetry; apply Z.ltb_lt; lia).
    now rewrite andb_false_r.
Qed.

Lemma introductions_lead_to_playing_witness :
  status (gameState lobby_host) = LOBBY
  /\ players (gameState lobby_host) <> []
  /\ status (gameState
               (run [ClickStartGame; IntroNextPlayer; IntroNextPlayer;
                     IntroFinished] lobby_host)) = PLAYING.
Proof.
  assert (Hp : players (gameState lobby_host) <> [])
    by (vm_compute; discriminate).
  split; [reflexivity|]. split; [exact Hp|].
  exact (proj1 (introductions_lead_to_playing lobby_host eq_refl Hp)).
Defined.

(** ** Running out of time, and the end of the game *)





Lemma countdown_runs_down (k : nat) :
  forall h,
    awaiting_buzz (gameState h) ->
    timer (gameState h) = Z.of_nat k ->
    gameState (run (repeat TimerTick k) h) = merge (gameState h) [F_timer 0].
Proof.
  unfold run. induction k as [|k IH]; intros h [Hst Hap] Ht.
  - simpl. destruct (gameState h); simpl in *. now subst.
  - cbn [repeat fold_left fire]. rewrite Hst, Hap, Ht.
    cbn [status_eqb andb negb].
    replace (0 <? Z.of_nat (S k)) with true by (symmetry; apply Z.ltb_lt; lia).
    cbn [andb]. cbv zeta. rewrite IH; frame; unfold merge;
      cbn [fold_left assign roomCode status activeQuestion activePlayerId
           players categories theme timer buzzerLockUntil revealTimer
           isHostControllerConnected].
    + reflexivity.
    + now split.
    + lia.
Qed.

(** X19.  With a question up and nobody answering, a countdown standing at [k]
    runs out after [k] ticks, and the timeout that follows closes the
    question like a skip: phase REVEAL, the question marked answered,
    nobody active, no score touched.  The reveal countdown is not
    restarted by it: it keeps the value it had, so when an earlier reveal
    left it at 0 the reveal of the timed-out question is over at once. *)
Theorem question_times_out :
  forall (h : Host) (aq : Question) (k : nat),
    awaiting_buzz (gameState h) ->
    activeQuestion (gameState h) = Some aq ->
    timer (gameState h) = Z.of_nat k ->
    let h' := run (repeat TimerTick k ++ [TimerExpired])%list h in
    status (gameState h') = REVEAL
    /\ categories (gameState h')
       = mark_answered (Some aq) (categories (gameState h))
    /\ players (gameState h') = players (gameState h)
    /\ activePlayerId (gameState h') = None
    /\ revealTimer (gameState h') = revealTimer (gameState h)
    /\ (revealTimer (gameState h) = Some 0 ->
        status (gameState (fire RevealExpired h')) <> REVEAL).
Proof.
  intros h aq k Haw Haq Ht h'.
  pose proof (countdown_runs_down k h Haw Ht) as E.
  destruct Haw as [Hst Hap].
  assert (E' : gameState h'
               = merge (merge (gameState h) [F_timer 0])
                       [F_status REVEAL;
                        F_categories
                          (mark_answered (Some aq)
                                         (categories (gameState h)));
                        F_activePlayerId None]).
  { subst h'. unfold run. rewrite fold_left_app.
    fold (run (repeat TimerTick k) h). cbn [fold_left fire].
    rewrite E. unfold merge at 1 2 3;
      cbn [fold_left assign status timer activePlayerId].
    rewrite Hst, Hap. cbn [status_eqb andb negb Z.eqb].
    unfold skipQuestion. unfold merge at 1 2;
      cbn [fold_left assign activeQuestion categories].
    rewrite Haq. frame. rewrite E. reflexivity. }
  rewrite E'. unfold merge; simpl.
  repeat split.
  intros Hr. cbn [fire]. rewrite E'. unfold merge; simpl. rewrite Hr.
  cbn [Z.eqb]. unfold finishReveal.
  destruct (allAnswered _); frame; unfold merge; simpl; discriminate.
Qed.

(** The countdown of [answering_host] with Ann's buzz taken back: thirty
    ticks and the timeout close the question without touching a score. *)
Lemma question_times_out_witness :
  let h := with_gameState (merge answering_state [F_activePlayerId None])
                          answering_host in
  let h' := run (repeat TimerTick 30 ++ [TimerExpired])%list h in
  awaiting_buzz (gameState h)
  /\ status (gameState h') = REVEAL
  /\ players (gameState h') = players (gameState h).
Proof.
  intros h h'.
  assert (Haw : awaiting_buzz (gameState h)) by (split; reflexivity).
  destruct (question_times_out h (demo_question "q-0-1" 400) 30 Haw
              eq_refl eq_refl) as (Hs & _ & Hp & _).
  split; [exact Haw|]. split; [exact Hs | exact Hp].
Defined.

(** * Room codes *)

Lemma charAt_chars (i : nat) :
  (i < 25)%nat ->
  exists c, charAt chars i = String c EmptyString
            /\ In c (list_ascii_of_string chars)
            /\ c <> "O"%char.
Proof.
  intro Hi.
  do 25 (destruct i as [|i];
         [ eexists; split; [reflexivity|];
           split; [ cbn [list_ascii_of_string chars In];
                    repeat first [left; reflexivity | right]
                  | discriminate ] | ]).
  lia.
Qed.

(** X20.  A room code is always four characters long, each of them one of the
    25 capital letters of the alphabet [chars]; the letter O never occurs
    in a room code. *)
Theorem room_code_letters :
  forall (random : nat -> nat),
    exists c0 c1 c2 c3,
      generateRoomCode random
      = String c0 (String c1 (String c2 (String c3 EmptyString)))
      /\ Forall (fun c => In c (list_ascii_of_string chars)
                          /\ c <> "O"%char)
                [c0; c1; c2; c3].
Proof.
  intro random. unfold generateRoomCode. cbn [seq map].
  assert (Hlt : forall k,
             (floor_random (random k) (String.length chars) < 25)%nat).
  { intro k. apply (floor_random_lt (random k) 25). discriminate. }
  destruct (charAt_chars _ (Hlt 0%nat)) as (c0 & E0 & H0).
  destruct (charAt_chars _ (Hlt 1%nat)) as (c1 & E1 & H1).
  destruct (charAt_chars _ (Hlt 2%nat)) as (c2 & E2 & H2).
  destruct (charAt_chars _ (Hlt 3%nat)) as (c3 & E3 & H3).
  exists c0, c1, c2, c3. rewrite E0, E1, E2, E3.
  split; [reflexivity|].
  repeat (apply Forall_cons; [assumption|]). apply Forall_nil.
Qed.

(** * Boards as generated and loaded *)

Section BoardIds.

Variable prefix : string.











End BoardIds.


(** The data file [flagged_raw] loaded: the second question has the id,
    the category and the unanswered state the loader gives it, and is red
    from the start. *)
Lemma loaded_flags_survive :
  map (fun q => (q_id q, q_category q, q_isAnswered q, is_red q))
      (allQuestions (loadMedicalBoard flagged_raw))
  = [("static-0-0", "Anatomy", false, false);
     ("static-0-1", "Anatomy", false, true)]
  /\ ~ unflagged (loadMedicalBoard flagged_raw).
Proof.
  split; [reflexivity|].
  intro H. unfold unflagged in H. simpl in H.
  inversion H as [|? ? _ H1]; subst.
  inversion H1 as [|? ? [_ Hr] _]; subst. discriminate Hr.
Qed.

(** * More on the initial board *)

Section Flagging.

Variable f : nat -> Question -> Question.
Hypothesis f_flags_only : forall i q, same_but_flags q (f i q).

Lemma map_counting_flags_only (qs : list Question) :
  forall count,
    Forall2 same_but_flags qs (fst (map_counting f count qs)).
Proof.
  induction qs as [|q qs IH]; intro count; simpl; [constructor|].
  specialize (IH (S count)).
  destruct (map_counting f (S count) qs) as [t' c']. simpl in *.
  constructor; [apply f_flags_only | exact IH].
Qed.

Lemma map_categories_counting_flags_only (cs : list Category) :
  forall count,
    Forall2 same_category_but_flags cs
            (fst (map_categories_counting f count cs)).
Proof.
  induction cs as [|cat cs IH]; intro count; simpl; [constructor|].
  pose proof (map_counting_flags_only (questions cat) count) as Hq.
  destruct (map_counting f count (questions cat)) as [qs c1]. simpl in Hq.
  specialize (IH c1).
  destruct (map_categories_counting f c1 cs) as [t' c2]. simpl in *.
  constructor; [|exact IH]. split; [reflexivity | exact Hq].
Qed.

End Flagging.

Lemma same_but_flags_trans (a b c : Question) :
  same_but_flags a b -> same_but_flags b c -> same_but_flags a c.
Proof. unfold same_but_flags. intuition congruence. Qed.

Lemma Forall2_trans {A : Type} (R : A -> A -> Prop) :
  (forall a b c, R a b -> R b c -> R a c) ->
  forall l1 l2 l3, Forall2 R l1 l2 -> Forall2 R l2 l3 -> Forall2 R l1 l3.
Proof.
  intros HR l1 l2 l3 H12. revert l3.
  induction H12 as [|x y l1 l2 Hxy H12 IH]; intros l3 H23;
    inversion H23; subst; constructor; eauto.
Qed.

Lemma same_category_but_flags_trans (a b c : Category) :
  same_category_but_flags a b -> same_category_but_flags b c ->
  same_category_but_flags a c.
Proof.
  intros [Ht1 Hq1] [Ht2 Hq2]. split; [congruence|].
  eapply (Forall2_trans same_but_flags same_but_flags_trans); eassumption.
Qed.

(** X22.  Flagging changes nothing but flags: the board of the initial state
    has the categories of the board it was built from, with their titles,
    and in each the same questions in the same order, with id, value,
    texts, category and [isAnswered] as delivered. *)
Theorem initial_board_keeps_the_questions :
  forall (random : nat -> nat) (cs : list Category),
    Forall2 same_category_but_flags cs (init_board random cs)
    /\ map q_id (allQuestions (init_board random cs))
       = map q_id (allQuestions cs).
Proof.
  intros random cs.
  assert (H : Forall2 same_category_but_flags cs (init_board random cs)).
  { unfold init_board.
    eapply (Forall2_trans _ same_category_but_flags_trans).
    - apply map_categories_counting_flags_only with
        (f := fun qCount q =>
                if includes (goldenIndices_of random cs) qCount
                then with_isGolden true q else q).
      intros i q. destruct (includes _ i); repeat split.
    - apply map_categories_counting_flags_only.
      intros i q. destruct (Z.of_nat i =? _); repeat split. }
  split; [exact H|].
  unfold allQuestions.
  induction H as [|c c' l l' [_ Hq] _ IH]; simpl; [reflexivity|].
  rewrite !map_app, IH. f_equal.
  clear -Hq. induction Hq as [|q q' qs qs' [Hid _] _ IHq]; simpl;
    [reflexivity | now rewrite Hid, IHq].
Qed.

Lemma arrangement_is_full (n : nat) (a : list nat) :
  is_arrangement n a -> forall r, (r < n)%nat -> In r a.
Proof.
  intros (Hlen & Hnd & Hlt) r Hr.
  assert (Hincl : incl (seq 0 n) a).
  { apply NoDup_length_incl.
    - exact Hnd.
    - rewrite length_seq. lia.
    - intros x Hx. apply in_seq. specialize (Hlt x Hx). lia. }
  apply Hincl, in_seq. lia.
Qed.

(** X23.  On a board of three questions or fewer, none of them flagged before,
    initialisation flags every question golden and none red: all positions
    are golden, so each of the 100 attempts of the red loop fails.  An
    empty board stays empty. *)
Theorem small_board_flags :
  forall (random : nat -> nat) (cs : list Category),
    (List.length (allQuestions cs) <= 3)%nat ->
    unflagged cs ->
    count_golden (init_board random cs) = List.length (allQuestions cs)
    /\ count_red (init_board random cs) = 0%nat.
Proof.
  intros random cs Hn Hun.
  set (n := List.length (allQuestions cs)) in *.
  assert (HG : is_arrangement n (goldenIndices_of random cs)).
  { unfold goldenIndices_of. fold n.
    pose proof (shuffle_arrangement random n (n - 1) 0 (seq 0 n)) as Hs.
    destruct (Nat.eq_dec n 0) as [E|E].
    - rewrite E. simpl. repeat split; [constructor | contradiction].
    - specialize (Hs ltac:(lia) (seq_arrangement n)).
      rewrite firstn_all2; [exact Hs|]. destruct Hs as [Hl _]. lia. }
  destruct HG as (Hlen & Hnd & Hlt). split.
  - unfold count_golden. rewrite init_board_flat.
    rewrite (count_imap is_golden _
               (includes (goldenIndices_of random cs))).
    + fold n. now rewrite count_included.
    + intros i q Hin. apply flag_golden.
      now apply (proj1 (Forall_forall _ _) Hun q Hin).
  - rewrite count_red_init by assumption. fold n.
    destruct (redIndex_cases random cs) as [[-> _] | (a & _ & Hinc & ->)];
      [reflexivity|].
    destruct (Nat.eq_dec n 0) as [E|E].
    + rewrite E.
      replace (Z.of_nat (red_draw random cs a) <? Z.of_nat 0) with false
        by (symmetry; apply Z.ltb_ge; lia).
      now rewrite andb_false_r.
    + exfalso.
      assert (Hr : (red_draw random cs a < n)%nat)
        by (unfold red_draw; fold n; now apply floor_random_lt).
      pose proof (arrangement_is_full n _ (conj Hlen (conj Hnd Hlt)) _ Hr)
        as Hin.
      apply includes_In in Hin. congruence.
Qed.

Lemma small_board_flags_witness :
  (List.length (allQuestions small_board) <= 3)%nat
  /\ unflagged small_board
  /\ count_golden (init_board (fun _ => O) small_board) = 2%nat
  /\ count_red (init_board (fun _ => O) small_board) = 0%nat.
Proof.
  assert (Hn : (List.length (allQuestions small_board) <= 3)%nat)
    by (simpl; lia).
  assert (Hun : unflagged small_board)
    by (unfold unflagged; simpl; repeat constructor).
  split; [exact Hn|]. split; [exact Hun|].
  exact (small_board_flags (fun _ => O) small_board Hn Hun).
Defined.

(** * Scores and penalties *)

Lemma scoreboard_of_map (f : Player -> Player) (ps : list Player) :
  (forall p, p_id (f p) = p_id p /\ p_score (f p) = p_score p) ->
  map (fun p => (p_id p, p_score p)) (map f ps)
  = map (fun p => (p_id p, p_score p)) ps.
Proof.
  intro H. rewrite map_map. apply map_ext. intro p.
  destruct (H p) as [-> ->]. reflexivity.
Qed.

Lemma fire_keeps_scoreboard (e : Event) (h : Host) :
  changes_roster_or_scores e = false ->
  scoreboard (gameState (fire e h)) = scoreboard (gameState h).
Proof.
  intro Hq. unfold scoreboard.
  destruct e; cbn [fire changes_roster_or_scores] in *; host_cases;
    try (cbn in Hq; discriminate Hq);
    first
      [ reflexivity
      | apply scoreboard_of_map;
        let p := fresh "p" in
        intro p;
        match goal with
        | |- context [if ?b then _ else _] => destruct b; split; reflexivity
        end ].
Qed.

(** X24.  Scores move only when an answer is judged or a score is set by hand,
    and the list of players only when somebody joins or is kicked.  Every
    other event (a buzz, a locked attempt, a timeout or skip, a rename, a
    question being picked, a connection closing, the timers) and any
    sequence of such events leaves the scoreboard, ids and scores in
    order, exactly as it was. *)
Theorem scoreboard_is_stable :
  forall (es : list Event) (h : Host),
    forallb (fun e => negb (changes_roster_or_scores e)) es = true ->
    scoreboard (gameState (run es h)) = scoreboard (gameState h).
Proof.
  unfold run. induction es as [|e es IH]; intros h Hes; simpl;
    [reflexivity|].
  simpl in Hes. apply andb_true_iff in Hes. destruct Hes as [He Hes].
  apply negb_true_iff in He.
  now rewrite IH, fire_keeps_scoreboard.
Qed.

(** Ann is answering; Bob tries to buzz in, his connection drops and the
    host renames Ann: the scoreboard stays 0 for Ann, 100 for Bob. *)
Lemma scoreboard_is_stable_witness :
  let es := [Receive (mkMsg T_BUZZ NoPayload "p2") "peer-bob" 3500;
             Receive (mkMsg T_BUZZ_LOCKED_ATTEMPT NoPayload "p2") "peer-bob"
                     3600;
             ConnectionClosed 1; EditName 0 "Anna"] in
  forallb (fun e => negb (changes_roster_or_scores e)) es = true
  /\ scoreboard (gameState (run es answering_host)) = [("p1", 0); ("p2", 100)].
Proof.
  intro es. split; [reflexivity|].
  rewrite (scoreboard_is_stable es answering_host eq_refl). reflexivity.
Defined.





(** * Resetting the controller slot *)

(** X26.  The Reset Controller button, shown while a controller is connected,
    frees the slot and clears the flag without closing any connection;
    the next device that joins under the controller name, whichever it
    is, then holds the slot. *)
Theorem controller_reset :
  forall (h : Host) (newPlayer : Player)
         (sender senderPeerId : string) (now : Z),
    truthy_bool (isHostControllerConnected (gameState h)) = true ->
    p_name newPlayer = "HOST_CONTROLLER" ->
    let h1 := fire ClickResetController h in
    let h2 := handlePeerMessage
                (mkMsg T_PLAYER_JOIN (PlayerPayload newPlayer) sender)
                senderPeerId now h1 in
    hostControllerPeerIdRef h1 = None
    /\ isHostControllerConnected (gameState h1) = Some false
    /\ connections h1 = connections h
    /\ hostControllerPeerIdRef h2 = Some senderPeerId
    /\ isHostControllerConnected (gameState h2) = Some true
    /\ players (gameState h2) = players (gameState h).
Proof.
  intros h np sender peerId now Hc Hname h1 h2.
  assert (E1 : h1 = updateAndBroadcast
                      [F_isHostControllerConnected (Some false)]
                      (with_hostControllerPeerIdRef None h)).
  { subst h1. cbn [fire]. now rewrite Hc. }
  assert (R1 : hostControllerPeerIdRef h1 = None).
  { rewrite E1. now frame. }
  assert (E2 : h2 = updateAndBroadcast
                      [F_isHostControllerConnected (Some true)]
                      (with_hostControllerPeerIdRef (Some peerId) h1)).
  { subst h2. unfold handlePeerMessage; cbn [msg_type payload].
    rewrite Hname, R1.
    replace (String.eqb "HOST_CONTROLLER" "HOST_CONTROLLER") with true
      by reflexivity.
    reflexivity. }
  split; [exact R1|].
  split; [rewrite E1; now frame|].
  split; [rewrite E1; unfold updateAndBroadcast;
          now rewrite setGameState_connections|].
  rewrite E2. frame. unfold merge; simpl.
  split; [reflexivity|]. split; [reflexivity|].
  rewrite E1. now frame.
Qed.

(** The host resets the slot of [controlled_host]; the device on
    [peer-new], turned away before, now becomes the controller. *)
Lemma controller_reset_witness :
  let h1 := fire ClickResetController controlled_host in
  let h2 := handlePeerMessage (controller_join "x7") "peer-new" 6000 h1 in
  truthy_bool (isHostControllerConnected (gameState controlled_host)) = true
  /\ hostControllerPeerIdRef h1 = None
  /\ hostControllerPeerIdRef h2 = Some "peer-new".
Proof.
  intros h1 h2.
  destruct (controller_reset controlled_host
              (mkPlayer "x7" "HOST_CONTROLLER" 0 false None None)
              "x7" "peer-new" 6000 eq_refl eq_refl)
    as (H1 & _ & _ & H2 & _).
  split; [reflexivity|]. split; [exact H1 | exact H2].
Defined.
